(** * Terraform LogViewer: filtering, correlation grouping, timeline layout
      and quality scoring

    A shallow embedding of the pure logic of four React components:
    - [calculateQualityScore]  (components/CompetitionDashboard.jsx),
    - [applyAllFilters] and [groupEntries]
      (components/EnhancedLogViewerWithFilters.jsx, and the older
      [groupEntries] of components/EnhancedLogViewer.jsx),
    - [getTimelineScale] and [getBarStyle]  (components/GanttChart.jsx).

    JavaScript values are modelled as far as these functions look at them:
    truthiness ([ToBoolean]) for the [||] and [!] idioms, [String(...)],
    [toLowerCase]/[includes] on strings, plain objects used as maps (own
    properties in creation order, the names inherited from
    [Object.prototype], the enumeration order of [Object.entries]) and
    numbers with [NaN] and the infinities.  Finite numbers are exact
    rationals: rounding of floating-point arithmetic is not modelled. *)

From Stdlib Require Import List String Ascii Bool Arith ZArith QArith Qround.
From Stdlib Require Import Lia Lqa Qminmax Permutation Sorted DecimalString.
From Stdlib Require Import Btauto.
Import ListNotations.

Local Open Scope string_scope.
Local Open Scope list_scope.
Local Open Scope Z_scope.

(* ================================================================== *)
(** * JavaScript values and built-ins                                  *)
(* ================================================================== *)

Module JS.

(** ** Strings *)

(** [String.prototype.toLowerCase], on ASCII letters. *)
Definition lower_ascii (c : ascii) : ascii :=
  let n := nat_of_ascii c in
  if ((65 <=? n) && (n <=? 90))%nat then ascii_of_nat (n + 32) else c.

Fixpoint toLowerCase (s : string) : string :=
  match s with
  | EmptyString => EmptyString
  | String c t => String (lower_ascii c) (toLowerCase t)
  end.

(** [hay.includes(needle)]: [needle] occurs in [hay] at some position. *)
Fixpoint includes (hay needle : string) : bool :=
  String.prefix needle hay ||
  match hay with
  | EmptyString => false
  | String _ t => includes t needle
  end.

(** Decimal rendering of an integer, as [String(n)] gives it. *)
Definition string_of_Z (z : Z) : string :=
  NilZero.string_of_int (Z.to_int z).

(** ** Values

    The values an entry parsed from JSON can hand to the filter: the JSON
    scalars, [undefined] for a missing property, a plain object (opaque:
    [raw_data] itself, or [Object.prototype]) and the built-in methods a
    plain object inherits.  Numbers in entries are integers. *)
Inductive value : Type :=
| JUndefined
| JNull
| JBool (b : bool)
| JNum (z : Z)
| JStr (s : string)
| JObject
| JFunction (name : string).

(** [ToBoolean]: the falsy values are [undefined], [null], [false], [0]
    and the empty string. *)
Definition ToBoolean (v : value) : bool :=
  match v with
  | JUndefined | JNull => false
  | JBool b => b
  | JNum z => negb (z =? 0)
  | JStr s => negb (s =? "")%string
  | JObject | JFunction _ => true
  end.

(** [String(v)].  A plain object (one without a [toString] of its own)
    prints as [[object Object]], a built-in function as its native-code
    placeholder, in the layout V8 gives it. *)
Definition ToString (v : value) : string :=
  match v with
  | JUndefined => "undefined"
  | JNull => "null"
  | JBool true => "true"
  | JBool false => "false"
  | JNum z => string_of_Z z
  | JStr s => s
  | JObject => "[object Object]"
  | JFunction name => ("function " ++ name ++ "() { [native code] }")%string
  end.

(** [a || b] *)
Definition or (a b : value) : value := if ToBoolean a then a else b.

(** [a && b] *)
Definition and (a b : value) : value := if ToBoolean a then b else a.

(** An optional string field: [null]/missing or a string. *)
Definition of_opt (o : option string) : value :=
  match o with Some s => JStr s | None => JNull end.

(** ** Plain objects *)

(** The property names every plain object inherits from
    [Object.prototype]. *)
Definition Object_prototype_names : list string :=
  [ "constructor"; "__defineGetter__"; "__defineSetter__";
    "hasOwnProperty"; "__lookupGetter__"; "__lookupSetter__";
    "isPrototypeOf"; "propertyIsEnumerable"; "toString"; "valueOf";
    "__proto__"; "toLocaleString" ].

Definition inherited (name : string) : bool :=
  existsb (String.eqb name) Object_prototype_names.

(** What [o[name]] yields when [name] is not an own property of the plain
    object [o]: [Object.prototype] itself for [__proto__], the function
    [Object] for [constructor], the inherited method of that name for the
    other inherited names, and [undefined] otherwise. *)
Definition proto_get (name : string) : value :=
  if (name =? "__proto__")%string then JObject
  else if (name =? "constructor")%string then JFunction "Object"
  else if inherited name then JFunction name
  else JUndefined.

(** Own properties of a plain object, in creation order. *)
Definition object (A : Type) : Type := list (string * A).

Fixpoint own {A} (o : object A) (name : string) : option A :=
  match o with
  | [] => None
  | (k, v) :: t => if (k =? name)%string then Some v else own t name
  end.

(** [o[name]] on an object of JSON values. *)
Definition get (o : object value) (name : string) : value :=
  match own o name with
  | Some v => v
  | None => proto_get name
  end.

(** Array indices: the canonical decimal strings of the integers below
    [2^32 - 1].  [Object.entries] lists these keys first, in ascending
    numeric order, and every other string key after them in creation
    order. *)
Definition is_digit (c : ascii) : bool :=
  let n := nat_of_ascii c in ((48 <=? n) && (n <=? 57))%nat.

Fixpoint digits_value (s : string) (acc : N) : N :=
  match s with
  | EmptyString => acc
  | String c t =>
      digits_value t (10 * acc + N.of_nat (nat_of_ascii c - 48))%N
  end.

Fixpoint all_digits (s : string) : bool :=
  match s with
  | EmptyString => true
  | String c t => is_digit c && all_digits t
  end.

Definition array_index (s : string) : option N :=
  match s with
  | EmptyString => None
  | String c t =>
      if all_digits s
         && (negb (Ascii.eqb c "0") || (t =? "")%string)
         && (digits_value s 0 <? 4294967295)%N
      then Some (digits_value s 0)
      else None
  end.

Definition is_index (s : string) : bool :=
  match array_index s with Some _ => true | None => false end.

Definition index_of (s : string) : N :=
  match array_index s with Some n => n | None => 0%N end.

(** Insertion of an index-keyed property into a list sorted by index. *)
Fixpoint insert_by_index {A} (p : string * A) (l : list (string * A))
  : list (string * A) :=
  match l with
  | [] => [p]
  | q :: t =>
      if (index_of (fst p) <=? index_of (fst q))%N then p :: l
      else q :: insert_by_index p t
  end.

Definition sort_by_index {A} (l : list (string * A)) : list (string * A) :=
  fold_right insert_by_index [] l.

(** [Object.entries(o)] *)
Definition Object_entries {A} (o : object A) : list (string * A) :=
  sort_by_index (filter (fun p => is_index (fst p)) o)
  ++ filter (fun p => negb (is_index (fst p))) o.

(** ** Completion of a computation that may throw a [TypeError] *)
Inductive completion (A : Type) : Type :=
| Normal (a : A)
| TypeError (msg : string).
Arguments Normal {A} a.
Arguments TypeError {A} msg.

Definition bind {A B} (c : completion A) (k : A -> completion B)
  : completion B :=
  match c with
  | Normal a => k a
  | TypeError m => TypeError m
  end.

(** ** Numbers: [NaN], the infinities and the finite numbers *)
Inductive number : Type :=
| NaN
| Inf (negative : bool)
| Fin (q : Q).

Definition is_neg (q : Q) : bool := negb (Qle_bool 0 q).
Definition is_zero (q : Q) : bool := Qeq_bool q 0.

(** [a - b] *)
Definition sub (a b : number) : number :=
  match a, b with
  | NaN, _ | _, NaN => NaN
  | Inf s, Inf s' => if Bool.eqb s s' then NaN else Inf s
  | Inf s, Fin _ => Inf s
  | Fin _, Inf s => Inf (negb s)
  | Fin x, Fin y => Fin (x - y)
  end.

(** [a * b] *)
Definition mul (a b : number) : number :=
  match a, b with
  | NaN, _ | _, NaN => NaN
  | Inf s, Inf s' => Inf (xorb s s')
  | Inf s, Fin y => if is_zero y then NaN else Inf (xorb s (is_neg y))
  | Fin x, Inf s => if is_zero x then NaN else Inf (xorb s (is_neg x))
  | Fin x, Fin y => Fin (x * y)
  end.

(** [a / b]; the sign of a zero divisor is taken as positive. *)
Definition div (a b : number) : number :=
  match a, b with
  | NaN, _ | _, NaN => NaN
  | Inf _, Inf _ => NaN
  | Inf s, Fin y => Inf (xorb s (is_neg y))
  | Fin _, Inf _ => Fin 0
  | Fin x, Fin y =>
      if is_zero y then (if is_zero x then NaN else Inf (is_neg x))
      else Fin (x / y)
  end.

(** [Math.min(a, b)] and [Math.max(a, b)]: [NaN] if either is. *)
Definition min2 (a b : number) : number :=
  match a, b with
  | NaN, _ | _, NaN => NaN
  | Inf true, _ | _, Inf true => Inf true
  | Inf false, x | x, Inf false => x
  | Fin x, Fin y => if Qle_bool x y then Fin x else Fin y
  end.

Definition max2 (a b : number) : number :=
  match a, b with
  | NaN, _ | _, NaN => NaN
  | Inf false, _ | _, Inf false => Inf false
  | Inf true, x | x, Inf true => x
  | Fin x, Fin y => if Qle_bool x y then Fin y else Fin x
  end.

(** [Math.min(...l)] starts from [+Infinity], [Math.max(...l)] from
    [-Infinity]. *)
Definition Math_min (l : list number) : number :=
  fold_left min2 l (Inf false).

Definition Math_max (l : list number) : number :=
  fold_left max2 l (Inf true).

(** Truthiness of a number: [0] and [NaN] are falsy. *)
Definition truthy (a : number) : bool :=
  match a with
  | NaN => false
  | Inf _ => true
  | Fin q => negb (is_zero q)
  end.

(** [a || b] on numbers. *)
Definition num_or (a b : number) : number := if truthy a then a else b.

(** [Math.round]: nearest integer, halves towards [+Infinity]. *)
Definition Math_round (q : Q) : Z := Qfloor (q + (1 # 2)).

(** [x || d] on an optional integer: a missing, [null] or zero [x] gives
    the default. *)
Definition int_or (x : option Z) (d : Z) : Z :=
  match x with
  | Some z => if z =? 0 then d else z
  | None => d
  end.

(** ** [Set] objects of strings

    The elements in insertion order, each once. *)
Definition set_has (s : list string) (x : string) : bool :=
  existsb (String.eqb x) s.

(** [s.add(x)]: a new element goes last, a present one stays where it is. *)
Definition set_add (s : list string) (x : string) : list string :=
  if set_has s x then s else s ++ [x].

(** [s.delete(x)] *)
Definition set_delete (s : list string) (x : string) : list string :=
  filter (fun y => negb (y =? x)%string) s.

(** [x % y] on finite numbers, [y] not zero: the remainder of the division
    truncated towards zero, with the sign of [x]. *)
Definition Qtrunc (q : Q) : Z :=
  if Qle_bool 0 q then Qfloor q else Qceiling q.

Definition rem (x y : Q) : Q := x - y * inject_Z (Qtrunc (x / y)).

(** [x < y] on finite numbers. *)
Definition Qltb (x y : Q) : bool := negb (Qle_bool y x).

End JS.

(* ================================================================== *)
(** * Quality scoring: components/CompetitionDashboard.jsx              *)
(* ================================================================== *)

Module CompetitionDashboard.

(** The statistics record fetched from [/api/v2/statistics]:
    [{total_entries, levels: {error, warn, ...}}].  A count is an integer;
    [None] stands for a missing property. *)
Record Statistics : Type := mkStatistics {
  total_entries : option Z;
  levels : option (JS.object Z)
}.

(** [stats.levels?.name] *)
Definition level_count (stats : Statistics) (name : string) : option Z :=
  match levels stats with
  | Some l => JS.own l name
  | None => None
  end.

Record Breakdown : Type := mkBreakdown {
  base_score : Z;
  error_penalty : Z;
  warning_penalty : Z;
  error_count : Z;
  warning_count : Z;
  breakdown_total_entries : Z
}.

Record QualityScore : Type := mkQualityScore {
  score : Z;
  grade : string;
  breakdown : Breakdown;
  recommendations : list string
}.

Definition excellent_msg : string := "Configuration quality is excellent!".
Definition upload_msg : string :=
  "Upload Terraform logs to get quality assessment".

(** [recommendations.push(x)] *)
Definition push {A} (l : list A) (x : A) : list A := l ++ [x].

Definition calculateQualityScore (stats : Statistics) : QualityScore :=
  let totalEntries := JS.int_or (total_entries stats) 1 in
  let errorCount := JS.int_or (level_count stats "error") 0 in
  let warningCount := JS.int_or (level_count stats "warn") 0 in
  let score := 100 - (errorCount * 10) - (warningCount * 2) in
  let score := Z.max 0 (Z.min 100 score) in
  let grade :=
    if 90 <=? score then "A"
    else if 80 <=? score then "B"
    else if 70 <=? score then "C"
    else if 60 <=? score then "D"
    else "F" in
  let recommendations := [] in
  let recommendations :=
    if 0 <? errorCount
    then push recommendations
           ("Fix " ++ JS.string_of_Z errorCount ++ " configuration errors")%string
    else recommendations in
  let recommendations :=
    if 0 <? warningCount
    then push recommendations
           ("Address " ++ JS.string_of_Z warningCount ++ " warnings")%string
    else recommendations in
  let recommendations :=
    if (Nat.eqb (List.length recommendations) 0) && (0 <? totalEntries)
    then push recommendations excellent_msg
    else recommendations in
  let recommendations :=
    if totalEntries =? 0
    then push recommendations upload_msg
    else recommendations in
  {| score := JS.Math_round (inject_Z score);
     grade := grade;
     breakdown :=
       {| base_score := 100;
          error_penalty := errorCount * 10;
          warning_penalty := warningCount * 2;
          error_count := errorCount;
          warning_count := warningCount;
          breakdown_total_entries := totalEntries |};
     recommendations := recommendations |}.

(** The statistics record carrying the three counts
    [score(totalEntries, errorCount, warningCount)] is called on. *)
Definition stats_of (totalEntries errorCount warningCount : Z) : Statistics :=
  {| total_entries := Some totalEntries;
     levels := Some [("error", errorCount); ("warn", warningCount)] |}.

(** The dashboard data [loadCompetitionData] builds from the statistics. *)
Record SystemOverview : Type := mkSystemOverview {
  total_logs_processed : Z;
  active_plugins : list string;
  system_health : string;
  real_time_enabled : bool
}.

Record DashboardData : Type := mkDashboardData {
  system_overview : SystemOverview;
  quality_score : QualityScore;
  competition_features : list string
}.

Definition demoData (stats : Statistics) : DashboardData :=
  let qualityScore := calculateQualityScore stats in
  {| system_overview :=
       {| total_logs_processed := JS.int_or (total_entries stats) 0;
          active_plugins := ["error_detector"; "performance_analyzer"];
          system_health := "excellent";
          real_time_enabled := true |};
     quality_score := qualityScore;
     competition_features :=
       [ "Advanced Error Detection"; "Real-time WebSocket Dashboard";
         "Quality Scoring System"; "Dependency Visualization";
         "gRPC Plugin System"; "Performance Analytics";
         "Export Capabilities"; "AI-powered Insights" ] |}.

(** The colour of the score figure and the status of the progress circle,
    both chosen from the grade. *)
Definition scoreColor (qualityScore : QualityScore) : string :=
  if (grade qualityScore =? "A")%string then "#3f8600"
  else if (grade qualityScore =? "B")%string then "#1890ff"
  else if (grade qualityScore =? "C")%string then "#faad14"
  else "#ff4d4f".

Definition progressStatus (qualityScore : QualityScore) : string :=
  if (grade qualityScore =? "A")%string then "success" else "normal".

End CompetitionDashboard.


(* ================================================================== *)
(** * Log entries                                                      *)
(* ================================================================== *)

(** An entry as [/api/v2/entries] returns it.  Optional fields are [None]
    when missing or [null]; [raw_data] holds the open-schema attributes and
    [extra] the properties of the entry that the viewer does not name
    ([module], [description], ...). *)
Record LogEntry : Type := mkLogEntry {
  id : string;
  timestamp : string;
  level : string;
  operation : string;
  message : string;
  tf_req_id : option string;
  tf_http_trans_id : option string;
  tf_rpc : option string;
  tf_resource_type : option string;
  read : bool;
  raw_data : option (JS.object JS.value);
  extra : JS.object JS.value
}.

(** The entry seen as a plain object: its own properties. *)
Definition own_properties (entry : LogEntry) : JS.object JS.value :=
  [ ("id", JS.JStr (id entry));
    ("timestamp", JS.JStr (timestamp entry));
    ("level", JS.JStr (level entry));
    ("operation", JS.JStr (operation entry));
    ("message", JS.JStr (message entry));
    ("tf_req_id", JS.of_opt (tf_req_id entry));
    ("tf_http_trans_id", JS.of_opt (tf_http_trans_id entry));
    ("tf_rpc", JS.of_opt (tf_rpc entry));
    ("tf_resource_type", JS.of_opt (tf_resource_type entry));
    ("read", JS.JBool (read entry));
    ("raw_data",
      match raw_data entry with Some _ => JS.JObject | None => JS.JNull end) ]
  ++ extra entry.

(** [entry[field]] *)
Definition entry_get (entry : LogEntry) (field : string) : JS.value :=
  JS.get (own_properties entry) field.

(** [entry.raw_data && entry.raw_data[field]] *)
Definition raw_data_get (entry : LogEntry) (field : string) : JS.value :=
  match raw_data entry with
  | Some attrs => JS.get attrs field
  | None => JS.JNull
  end.

(** [a || b || 'ungrouped'] on optional strings: the first one that is
    present and not empty. *)
Definition str_or (a : option string) (b : string) : string :=
  match a with
  | Some s => if (s =? "")%string then b else s
  | None => b
  end.

(** ** The accumulator of [groupEntries]: a plain object of arrays *)

(** What [acc[groupId]] evaluates to: an own array, or whatever the
    prototype chain gives. *)
Inductive slot : Type :=
| OwnArray (arr : list LogEntry)
| Inherited (v : JS.value).

Definition acc_get (acc : JS.object (list LogEntry)) (groupId : string) : slot :=
  match JS.own acc groupId with
  | Some arr => OwnArray arr
  | None => Inherited (JS.proto_get groupId)
  end.

Definition slot_truthy (s : slot) : bool :=
  match s with
  | OwnArray _ => true
  | Inherited v => JS.ToBoolean v
  end.

(** [acc[groupId] = arr]: an existing own property keeps its place, a new
    one is created last. *)
Fixpoint acc_set (acc : JS.object (list LogEntry)) (groupId : string)
  (arr : list LogEntry) : JS.object (list LogEntry) :=
  match acc with
  | [] => [(groupId, arr)]
  | (k, v) :: t =>
      if (k =? groupId)%string then (k, arr) :: t
      else (k, v) :: acc_set t groupId arr
  end.

(** The body of the reducer, shared by both revisions of the viewer:
[[
      if (!acc[groupId]) acc[groupId] = [];
      acc[groupId].push(entry);
      return acc;
]]
    [push] exists on arrays only. *)
Definition group_step (groupId : string) (acc : JS.object (list LogEntry))
  (entry : LogEntry) : JS.completion (JS.object (list LogEntry)) :=
  let acc :=
    if negb (slot_truthy (acc_get acc groupId)) then acc_set acc groupId []
    else acc in
  match acc_get acc groupId with
  | OwnArray arr => JS.Normal (acc_set acc groupId (arr ++ [entry]))
  | Inherited _ => JS.TypeError "acc[groupId].push is not a function"
  end.

(** [entries.reduce(f, init)] for a callback that may throw. *)
Fixpoint reduce {A B} (f : B -> A -> JS.completion B) (l : list A) (init : B)
  : JS.completion B :=
  match l with
  | [] => JS.Normal init
  | x :: t => JS.bind (f init x) (reduce f t)
  end.

(* ================================================================== *)
(** * components/EnhancedLogViewerWithFilters.jsx                       *)
(* ================================================================== *)

Module EnhancedLogViewerWithFilters.

(** The [filters] state.  The two selects are clearable: [None] is the
    cleared ([undefined]) state. *)
Record Filters : Type := mkFilters {
  f_operation : option string;
  f_level : option string;
  f_resourceType : string;
  f_search : string;
  f_showRead : bool
}.

Record DynamicFilter : Type := mkDynamicFilter {
  field : string;
  value : string
}.

(** [f && f !== 'all'] *)
Definition active (f : option string) : option string :=
  match f with
  | Some s => if (s =? "")%string || (s =? "all")%string then None else Some s
  | None => None
  end.

Definition search_match (search : string) (entry : LogEntry) : bool :=
  JS.includes (JS.toLowerCase (message entry)) (JS.toLowerCase search)
  || match tf_rpc entry with
     | Some rpc =>
         negb (rpc =? "")%string
         && JS.includes (JS.toLowerCase rpc) (JS.toLowerCase search)
     | None => false
     end.

(** [entry[df.field] || (entry.raw_data && entry.raw_data[df.field]) || ''] *)
Definition fieldValue (entry : LogEntry) (df : DynamicFilter) : JS.value :=
  JS.or (JS.or (entry_get entry (field df)) (raw_data_get entry (field df)))
        (JS.JStr "").

Definition dynamic_match (entry : LogEntry) (df : DynamicFilter) : bool :=
  if (field df =? "")%string || (value df =? "")%string then true
  else JS.includes (JS.toLowerCase (JS.ToString (fieldValue entry df)))
                   (JS.toLowerCase (value df)).

(** The list [applyAllFilters] stores with [setEntries] and hands to
    [groupEntries]. *)
Definition applyAllFilters (filters : Filters)
  (dynamicFilters : list DynamicFilter) (allEntries : list LogEntry)
  : list LogEntry :=
  let filtered := allEntries in
  let filtered :=
    match active (f_operation filters) with
    | Some op => filter (fun entry => (operation entry =? op)%string) filtered
    | None => filtered
    end in
  let filtered :=
    match active (f_level filters) with
    | Some lv => filter (fun entry => (level entry =? lv)%string) filtered
    | None => filtered
    end in
  let filtered :=
    if negb (f_search filters =? "")%string
    then filter (search_match (f_search filters)) filtered
    else filtered in
  let filtered :=
    if negb (f_showRead filters)
    then filter (fun entry => negb (read entry)) filtered
    else filtered in
  let filtered :=
    if (0 <? List.length dynamicFilters)%nat
    then filter (fun entry => forallb (dynamic_match entry) dynamicFilters)
                filtered
    else filtered in
  filtered.

(** [entry.tf_req_id || entry.tf_http_trans_id || 'ungrouped'] *)
Definition groupId (entry : LogEntry) : string :=
  str_or (tf_req_id entry) (str_or (tf_http_trans_id entry) "ungrouped").

(** The object [groupEntries] stores with [setGroupedEntries]. *)
Definition groupEntries (entries : list LogEntry)
  : JS.completion (JS.object (list LogEntry)) :=
  reduce (fun acc entry => group_step (groupId entry) acc entry) entries [].

(** What [applyAllFilters] leaves in the component state: the filtered
    entries, their count and their groups. *)
Record ViewState : Type := mkViewState {
  st_entries : list LogEntry;
  st_totalCount : nat;
  st_groupedEntries : JS.completion (JS.object (list LogEntry))
}.

Definition applyAllFilters_state (filters : Filters)
  (dynamicFilters : list DynamicFilter) (allEntries : list LogEntry)
  : ViewState :=
  let filtered := applyAllFilters filters dynamicFilters allEntries in
  {| st_entries := filtered;
     st_totalCount := List.length filtered;
     st_groupedEntries := groupEntries filtered |}.

(** [[...dynamicFilters, { field: '', value: '' }]] *)
Definition addDynamicFilter (dynamicFilters : list DynamicFilter)
  : list DynamicFilter :=
  dynamicFilters ++ [mkDynamicFilter "" ""].

(** [newFilters.splice(index, 1)] on a copy, [index] being the position of
    a rendered filter row. *)
Definition removeDynamicFilter (index : nat)
  (dynamicFilters : list DynamicFilter) : list DynamicFilter :=
  firstn index dynamicFilters ++ skipn (S index) dynamicFilters.

(** [df[name] = v] for the two properties a filter is read by. *)
Definition set_property (df : DynamicFilter) (name v : string)
  : DynamicFilter :=
  if (name =? "field")%string then mkDynamicFilter v (value df)
  else if (name =? "value")%string then mkDynamicFilter (field df) v
  else df.

Fixpoint update_at (index : nat) (name v : string)
  (l : list DynamicFilter) : JS.completion (list DynamicFilter) :=
  match l, index with
  | [], _ => JS.TypeError "Cannot set properties of undefined"
  | df :: t, O => JS.Normal (set_property df name v :: t)
  | df :: t, S i => JS.bind (update_at i name v t)
                            (fun t' => JS.Normal (df :: t'))
  end.

(** [newFilters[index][field] = value] on a copy of the list. *)
Definition updateDynamicFilter (index : nat) (field_ value_ : string)
  (dynamicFilters : list DynamicFilter)
  : JS.completion (list DynamicFilter) :=
  update_at index field_ value_ dynamicFilters.

(** What [resetFilters] sets. *)
Definition resetFilters : Filters * list DynamicFilter :=
  ({| f_operation := Some ""; f_level := Some ""; f_resourceType := "";
      f_search := ""; f_showRead := true |}, []).

(** The updater of [toggleLogExpansion] and [toggleGroup]: a copy of the
    previous set with the identifier deleted if it was there and added if
    not. *)
Definition toggle (prev : list string) (x : string) : list string :=
  if JS.set_has prev x then JS.set_delete prev x else JS.set_add prev x.

Definition toggleLogExpansion (prev : list string) (logId : string) :=
  toggle prev logId.

Definition toggleGroup (prev : list string) (groupId_ : string) :=
  toggle prev groupId_.

(** [colors[level] || 'black'] and [colors[operation] || 'gray'], [colors]
    being a plain object literal. *)
Definition getLevelColor (level_ : string) : JS.value :=
  JS.or (JS.get [ ("error", JS.JStr "red"); ("warn", JS.JStr "orange");
                  ("info", JS.JStr "blue"); ("debug", JS.JStr "gray");
                  ("trace", JS.JStr "lightgray") ] level_)
        (JS.JStr "black").

Definition getOperationColor (operation_ : string) : JS.value :=
  JS.or (JS.get [ ("plan", JS.JStr "blue"); ("apply", JS.JStr "green");
                  ("validate", JS.JStr "orange");
                  ("unknown", JS.JStr "gray") ] operation_)
        (JS.JStr "gray").

End EnhancedLogViewerWithFilters.

(* ================================================================== *)
(** * components/EnhancedLogViewer.jsx (the revision without filters)   *)
(* ================================================================== *)

Module EnhancedLogViewer.

(** [entry.tf_req_id || 'ungrouped'] *)
Definition groupId (entry : LogEntry) : string :=
  str_or (tf_req_id entry) "ungrouped".

Definition groupEntries (entries : list LogEntry)
  : JS.completion (JS.object (list LogEntry)) :=
  reduce (fun acc entry => group_step (groupId entry) acc entry) entries [].

(** [{ ...entry, read: true }] *)
Definition set_read (entry : LogEntry) : LogEntry :=
  {| id := id entry; timestamp := timestamp entry; level := level entry;
     operation := operation entry; message := message entry;
     tf_req_id := tf_req_id entry;
     tf_http_trans_id := tf_http_trans_id entry; tf_rpc := tf_rpc entry;
     tf_resource_type := tf_resource_type entry; read := true;
     raw_data := raw_data entry; extra := extra entry |}.

(** The state update of [markAsRead], once the request has succeeded. *)
Definition markAsRead (entryId : string) (prev : list LogEntry)
  : list LogEntry :=
  map (fun entry => if (id entry =? entryId)%string then set_read entry
                    else entry) prev.

(** The query parameters [loadLogs] sends: the properties of [filters] in
    their order, those with a truthy value other than [showRead]. *)
Definition queryParams (filters : EnhancedLogViewerWithFilters.Filters)
  : list (string * string) :=
  let entries :=
    [ ("operation",
        JS.of_opt (EnhancedLogViewerWithFilters.f_operation filters));
      ("level", JS.of_opt (EnhancedLogViewerWithFilters.f_level filters));
      ("resourceType",
        JS.JStr (EnhancedLogViewerWithFilters.f_resourceType filters));
      ("search", JS.JStr (EnhancedLogViewerWithFilters.f_search filters));
      ("showRead",
        JS.JBool (EnhancedLogViewerWithFilters.f_showRead filters)) ] in
  map (fun kv => (fst kv, JS.ToString (snd kv)))
      (filter (fun kv => JS.ToBoolean (snd kv)
                         && negb (fst kv =? "showRead")%string)
              entries).

End EnhancedLogViewer.

(* ================================================================== *)
(** * components/GanttChart.jsx                                         *)
(* ================================================================== *)

Module GanttChart.

(** One operation of [/api/v2/gantt-data].  [start] and [end_] hold the time
    value of [new Date(item.start)] and [new Date(item.end)]: milliseconds
    since the epoch, or [None] when the date does not parse (an invalid
    [Date], whose [getTime()] is [NaN]). *)
Record GanttItem : Type := mkGanttItem {
  item_id : string;
  task : string;
  type : string;
  start : option Z;
  end_ : option Z;
  duration : Q;
  entry_count : Z;
  resources : list string
}.

(** [new Date(x).getTime()] *)
Definition getTime (t : option Z) : JS.number :=
  match t with
  | Some ms => JS.Fin (inject_Z ms)
  | None => JS.NaN
  end.

Record TimelineScale : Type := mkTimelineScale {
  min : JS.number;
  max : JS.number;
  range : JS.number
}.

(** [filter === 'all' ? ganttData : ganttData.filter(item => item.type === filter)] *)
Definition filteredData (filter_ : string) (ganttData : list GanttItem)
  : list GanttItem :=
  if (filter_ =? "all")%string then ganttData
  else filter (fun item => (type item =? filter_)%string) ganttData.

(** [getTimelineScale], over the filtered data; [now] is the time value of
    [new Date()]. *)
Definition getTimelineScale (now : Z) (filteredData : list GanttItem)
  : TimelineScale :=
  if Nat.eqb (List.length filteredData) 0
  then {| min := JS.Fin (inject_Z now);
          max := JS.Fin (inject_Z now);
          range := JS.Fin 0 |}
  else
    let timestamps :=
      flat_map (fun item => [getTime (start item); getTime (end_ item)])
               filteredData in
    let min := JS.Math_min timestamps in
    let max := JS.Math_max timestamps in
    let range := JS.num_or (JS.sub max min) (JS.Fin 1) in
    {| min := min; max := max; range := range |}.

(** The two computed properties of the style [getBarStyle] returns: [left]
    and [width] are the numbers written before the percent sign.  The other
    properties are the colour of the operation type and constants. *)
Record BarStyle : Type := mkBarStyle {
  left : JS.number;
  width : JS.number
}.

Definition getBarStyle (timeline : TimelineScale) (item : GanttItem)
  : BarStyle :=
  let startTime := getTime (start item) in
  let endTime := getTime (end_ item) in
  let left :=
    JS.mul (JS.div (JS.sub startTime (min timeline)) (range timeline))
           (JS.Fin 100) in
  let width :=
    JS.max2 (JS.mul (JS.div (JS.sub endTime startTime) (range timeline))
                    (JS.Fin 100))
            (JS.Fin (1 # 2)) in
  {| left := left; width := width |}.

(** The bars the chart renders: one per item of the filtered data, in its
    order, positioned against the scale of that same data. *)
Definition layout (now : Z) (filteredData : list GanttItem)
  : list (GanttItem * BarStyle) :=
  let timeline := getTimelineScale now filteredData in
  map (fun item => (item, getBarStyle timeline item)) filteredData.

(** [colors[operation] || '#333333'] *)
Definition getOperationColor (operation_ : string) : JS.value :=
  JS.or (JS.get [ ("plan", JS.JStr "#1890ff"); ("apply", JS.JStr "#52c41a");
                  ("validate", JS.JStr "#faad14");
                  ("unknown", JS.JStr "#222222") ] operation_)
        (JS.JStr "#333333").

(** [formatDuration] on a finite number of seconds. *)
Definition formatDuration (seconds : Q) : string :=
  if JS.Qltb seconds 1
  then (JS.string_of_Z (JS.Math_round (seconds * 1000)) ++ "ms")%string
  else if JS.Qltb seconds 60
  then (JS.string_of_Z (JS.Math_round seconds) ++ "s")%string
  else (JS.string_of_Z (JS.Math_round (seconds / 60)) ++ "m "
        ++ JS.string_of_Z (JS.Math_round (JS.rem seconds 60)) ++ "s")%string.

(** The counters above the chart, over all the data whatever the filter. *)
Record Stats : Type := mkStats {
  stats_total : nat;
  stats_plan : nat;
  stats_apply : nat;
  stats_validate : nat;
  stats_avgDuration : Q
}.

Definition count_type (t : string) (ganttData : list GanttItem) : nat :=
  List.length (filter (fun item => (type item =? t)%string) ganttData).

Definition stats (ganttData : list GanttItem) : Stats :=
  {| stats_total := List.length ganttData;
     stats_plan := count_type "plan" ganttData;
     stats_apply := count_type "apply" ganttData;
     stats_validate := count_type "validate" ganttData;
     stats_avgDuration :=
       if (0 <? List.length ganttData)%nat
       then fold_left (fun acc item => acc + duration item)%Q ganttData 0%Q
            / inject_Z (Z.of_nat (List.length ganttData))
       else 0%Q |}.

End GanttChart.


(* ================================================================== *)
(** * Reference definitions the statements are phrased with            *)
(* ================================================================== *)

(** [clamp x lo hi]: [x] brought into [[lo, hi]]. *)
Definition clamp (x lo hi : Z) : Z :=
  if x <? lo then lo else if hi <? x then hi else x.

(** The letter grade of a final score, by inclusive lower bounds. *)
Definition grade_of (score : Z) : string :=
  if 90 <=? score then "A"
  else if 80 <=? score then "B"
  else if 70 <=? score then "C"
  else if 60 <=? score then "D"
  else "F".

(** The keys of a sequence in the order they are first met, scanning left
    to right. *)
Fixpoint first_seen (keys : list string) : list string :=
  match keys with
  | [] => []
  | k :: t => k :: filter (fun k' => negb (k' =? k)%string) (first_seen t)
  end.

(** The entries of [entries] whose group key is [k], in their order. *)
Definition with_key (key : LogEntry -> string) (k : string)
  (entries : list LogEntry) : list LogEntry :=
  filter (fun entry => (key entry =? k)%string) entries.

(** One group per key, in first-met order, each holding the entries of that
    key in input order. *)
Definition groups_of (key : LogEntry -> string) (entries : list LogEntry)
  : JS.object (list LogEntry) :=
  map (fun k => (k, with_key key k entries)) (first_seen (map key entries)).

(** [Subseq l1 l2]: [l1] is [l2] with some elements left out. *)
Inductive Subseq {A : Type} : list A -> list A -> Prop :=
| Subseq_nil : Subseq [] []
| Subseq_skip (x : A) (l1 l2 : list A) : Subseq l1 l2 -> Subseq l1 (x :: l2)
| Subseq_keep (x : A) (l1 l2 : list A) :
    Subseq l1 l2 -> Subseq (x :: l1) (x :: l2).

(** Ascending numeric order of array-index keys. *)
Definition index_le (a b : string) : Prop :=
  (JS.index_of a <= JS.index_of b)%N.

(** An optional identifier that is not "present and non-empty". *)
Definition missing (o : option string) : Prop := o = None \/ o = Some "".

(** An entry with the given identifiers and nothing else of interest. *)
Definition sample_entry (id_ : string) (req trans : option string) : LogEntry :=
  {| id := id_; timestamp := "2025-01-01T00:00:00Z"; level := "info";
     operation := "plan"; message := "m"; tf_req_id := req;
     tf_http_trans_id := trans; tf_rpc := None; tf_resource_type := None;
     read := false; raw_data := None; extra := [] |}.

(** A select of the filter bar that filters nothing: cleared, never set,
    or set to the sentinel ["all"]. *)
Definition inert_choice (f : option string) : Prop :=
  f = None \/ f = Some "" \/ f = Some "all".

(** A dynamic filter that filters nothing: no field chosen or no value
    typed. *)
Definition inert_dynamic (df : EnhancedLogViewerWithFilters.DynamicFilter)
  : Prop :=
  EnhancedLogViewerWithFilters.field df = ""
  \/ EnhancedLogViewerWithFilters.value df = "".

(** The value of a property that an object has, [null] counting as not
    having it. *)
Definition present (o : JS.object JS.value) (name : string)
  : option JS.value :=
  match JS.own o name with
  | Some JS.JNull | Some JS.JUndefined | None => None
  | Some v => Some v
  end.

(** Field resolution as the specification words it: the entry's own field
    when it has one, else the attribute of that name in [raw_data] when
    there is one, else the empty string. *)
Definition resolve_present (entry : LogEntry) (name : string) : JS.value :=
  match present (own_properties entry) name with
  | Some v => v
  | None =>
      match raw_data entry with
      | Some attrs =>
          match present attrs name with
          | Some v => v
          | None => JS.JStr ""
          end
      | None => JS.JStr ""
      end
  end.

(** The match of a dynamic filter on that resolution. *)
Definition match_present (entry : LogEntry)
  (df : EnhancedLogViewerWithFilters.DynamicFilter) : bool :=
  JS.includes
    (JS.toLowerCase
       (JS.ToString
          (resolve_present entry (EnhancedLogViewerWithFilters.field df))))
    (JS.toLowerCase (EnhancedLogViewerWithFilters.value df)).

(** The filter bar in its initial state. *)
Definition no_filters : EnhancedLogViewerWithFilters.Filters :=
  EnhancedLogViewerWithFilters.mkFilters (Some "") (Some "") "" "" true.

(** A segment whose start and end both parse to an instant. *)
Definition well_timed (item : GanttChart.GanttItem) : Prop :=
  exists s e : Z,
    GanttChart.start item = Some s /\ GanttChart.end_ item = Some e.

(** The start and end instants of the segments that have them. *)
Definition instants (segments : list GanttChart.GanttItem) : list Z :=
  flat_map
    (fun item =>
       match GanttChart.start item, GanttChart.end_ item with
       | Some s, Some e => [s; e]
       | _, _ => []
       end)
    segments.

(** A plan operation with the given start and end. *)
Definition sample_item (s e : option Z) : GanttChart.GanttItem :=
  GanttChart.mkGanttItem "req-1" "tf_req_id: req-1" "plan" s e 0 1 [].

(** An instant, as a number. *)
Definition fin (z : Z) : JS.number := JS.Fin (inject_Z z).

(** An entry passes a filter specification when it passes every clause
    that is active. *)
Definition passes (filters : EnhancedLogViewerWithFilters.Filters)
  (dfs : list EnhancedLogViewerWithFilters.DynamicFilter)
  (entry : LogEntry) : bool :=
  match EnhancedLogViewerWithFilters.active
          (EnhancedLogViewerWithFilters.f_operation filters) with
  | Some op => (operation entry =? op)%string
  | None => true
  end
  && match EnhancedLogViewerWithFilters.active
             (EnhancedLogViewerWithFilters.f_level filters) with
     | Some lv => (level entry =? lv)%string
     | None => true
     end
  && (if (EnhancedLogViewerWithFilters.f_search filters =? "")%string
      then true
      else EnhancedLogViewerWithFilters.search_match
             (EnhancedLogViewerWithFilters.f_search filters) entry)
  && (if EnhancedLogViewerWithFilters.f_showRead filters then true
      else negb (read entry))
  && forallb (EnhancedLogViewerWithFilters.dynamic_match entry) dfs.

(* ================================================================== *)
(** * Quality scoring: facts                                           *)
(* ================================================================== *)

Section QualityScoring.

Import CompetitionDashboard.

Lemma Math_round_integer (z : Z) : JS.Math_round (inject_Z z) = z.
Proof.
  unfold JS.Math_round, Qfloor, Qplus, inject_Z. cbn [Qnum Qden Pos.mul].
  symmetry. apply Z.div_unique with (r := 1); lia.
Qed.

Lemma clamp_max_min (x : Z) : Z.max 0 (Z.min 100 x) = clamp x 0 100.
Proof.
  unfold clamp.
  destruct (x <? 0) eqn:E0; [apply Z.ltb_lt in E0 | apply Z.ltb_ge in E0];
  destruct (100 <? x) eqn:E1; [apply Z.ltb_lt in E1 | apply Z.ltb_ge in E1
                              |apply Z.ltb_lt in E1 | apply Z.ltb_ge in E1];
  lia.
Qed.

Lemma level_count_stats_of (t e w : Z) :
  level_count (stats_of t e w) "error" = Some e /\
  level_count (stats_of t e w) "warn" = Some w.
Proof. split; reflexivity. Qed.

Lemma int_or_zero_default (z : Z) : JS.int_or (Some z) 0 = z.
Proof.
  unfold JS.int_or. destruct (z =? 0) eqn:E; [apply Z.eqb_eq in E|]; congruence.
Qed.

Lemma score_of_counts (t e w : Z) :
  score (calculateQualityScore (stats_of t e w))
  = clamp (100 - e * 10 - w * 2) 0 100.
Proof.
  unfold calculateQualityScore.
  destruct (level_count_stats_of t e w) as [-> ->].
  rewrite !int_or_zero_default. cbn [score].
  rewrite Math_round_integer. apply clamp_max_min.
Qed.

Lemma grade_of_counts (t e w : Z) :
  grade (calculateQualityScore (stats_of t e w))
  = grade_of (score (calculateQualityScore (stats_of t e w))).
Proof.
  rewrite score_of_counts.
  unfold calculateQualityScore.
  destruct (level_count_stats_of t e w) as [-> ->].
  rewrite !int_or_zero_default. cbn [grade].
  rewrite clamp_max_min. reflexivity.
Qed.

(** C1: for all integer counts, and so for all non-negative ones, the score
    is [clamp(100 - errorCount*10 - warningCount*2, 0, 100)] after rounding
    to the nearest integer, the grade is A from 90, B from 80, C from 70,
    D from 60 and F below; [score(10, 2, 1)] is 78 with grade C. *)
Theorem C1_score_and_grade :
  (forall totalEntries errorCount warningCount : Z,
      0 <= totalEntries -> 0 <= errorCount -> 0 <= warningCount ->
      let q := calculateQualityScore
                 (stats_of totalEntries errorCount warningCount) in
      score q = clamp (100 - errorCount * 10 - warningCount * 2) 0 100
      /\ grade q = grade_of (score q)
      /\ (90 <= score q -> grade q = "A")
      /\ (80 <= score q < 90 -> grade q = "B")
      /\ (70 <= score q < 80 -> grade q = "C")
      /\ (60 <= score q < 70 -> grade q = "D")
      /\ (score q < 60 -> grade q = "F"))
  /\ score (calculateQualityScore (stats_of 10 2 1)) = 78
  /\ grade (calculateQualityScore (stats_of 10 2 1)) = "C".
Proof.
  split; [| split; reflexivity].
  intros t e w _ _ _ q. subst q.
  pose proof (grade_of_counts t e w) as Hg.
  pose proof (score_of_counts t e w) as Hs.
  set (q := calculateQualityScore (stats_of t e w)) in *.
  split; [exact Hs|]. split; [exact Hg|].
  rewrite Hg. unfold grade_of.
  repeat split; intros H;
    repeat match goal with
      | |- context [?a <=? ?b] =>
          let E := fresh "E" in
          destruct (a <=? b) eqn:E;
          [apply Z.leb_le in E | apply Z.leb_gt in E]
      end; try reflexivity; lia.
Qed.

Lemma C1_score_and_grade_witness :
  score (calculateQualityScore (stats_of 10 2 1)) = clamp 78 0 100 /\
  grade (calculateQualityScore (stats_of 3 1 5)) = "B".
Proof.
  destruct C1_score_and_grade as [H _].
  split.
  - apply (H 10 2 1); lia.
  - assert (H0 : 0 <= 3) by lia.
    assert (H1 : 0 <= 1) by lia.
    assert (H2 : 0 <= 5) by lia.
    destruct (H 3 1 5 H0 H1 H2) as (_ & Hg & _).
    rewrite Hg. reflexivity.
Defined.

(** [stats.total_entries || 1] is never zero. *)
Lemma totalEntries_nonzero (x : option Z) : JS.int_or x 1 <> 0.
Proof.
  unfold JS.int_or. destruct x as [z|]; [|lia].
  destruct (z =? 0) eqn:E; [lia | apply Z.eqb_neq in E; exact E].
Qed.

(** Whatever the statistics, the prompt to upload logs is not among the
    recommendations: the test [totalEntries === 0] that guards it cannot
    succeed after the default [|| 1]. *)
Lemma upload_prompt_never_recommended (stats : Statistics) :
  ~ In upload_msg (recommendations (calculateQualityScore stats)).
Proof.
  unfold calculateQualityScore. cbn [recommendations].
  pose proof (totalEntries_nonzero (total_entries stats)) as Hn.
  apply Z.eqb_neq in Hn. rewrite Hn.
  set (e := JS.int_or (level_count stats "error") 0).
  set (w := JS.int_or (level_count stats "warn") 0).
  unfold push.
  destruct (0 <? e), (0 <? w), (0 <? JS.int_or (total_entries stats) 1);
    cbn; intros H;
    repeat match goal with
      | H : _ \/ _ |- _ => destruct H as [H | H]
      | H : False |- _ => exact H
      end; discriminate H.
Qed.

(** C8: [score(0, 0, 0)] has score 100 and grade A, but its recommendations
    are the single acknowledgment that the quality is excellent, not the
    prompt to upload logs; [totalEntries] was replaced by 1. *)
Theorem C8_score_of_no_data :
  let q := calculateQualityScore (stats_of 0 0 0) in
  score q = 100
  /\ grade q = "A"
  /\ recommendations q = [excellent_msg]
  /\ ~ In upload_msg (recommendations q)
  /\ breakdown_total_entries (breakdown q) = 1.
Proof.
  cbv zeta. repeat split; try reflexivity.
  apply upload_prompt_never_recommended.
Qed.

(** The recommendations look at the sign of each count only through the
    tests [errorCount > 0] and [warningCount > 0]. *)
Lemma recommendations_negative_as_zero (t e w : Z) :
  recommendations (calculateQualityScore (stats_of t e w))
  = recommendations
      (calculateQualityScore (stats_of t (Z.max 0 e) (Z.max 0 w))).
Proof.
  unfold calculateQualityScore.
  destruct (level_count_stats_of t e w) as [-> ->].
  destruct (level_count_stats_of t (Z.max 0 e) (Z.max 0 w)) as [-> ->].
  rewrite !int_or_zero_default. cbn [recommendations total_entries stats_of].
  destruct (Z.max_spec 0 e) as [[He ->] | [He ->]];
  destruct (Z.max_spec 0 w) as [[Hw ->] | [Hw ->]]; try reflexivity.
  - assert (E : (0 <? w) = false) by (apply Z.ltb_ge; lia).
    rewrite E. reflexivity.
  - assert (E : (0 <? e) = false) by (apply Z.ltb_ge; lia).
    rewrite E. reflexivity.
  - assert (E : (0 <? e) = false) by (apply Z.ltb_ge; lia).
    assert (E' : (0 <? w) = false) by (apply Z.ltb_ge; lia).
    rewrite E, E'. reflexivity.
Qed.

Lemma clamp_antitone (x y : Z) : x <= y -> clamp x 0 100 <= clamp y 0 100.
Proof.
  intros H. unfold clamp.
  repeat match goal with
    | |- context [?a <? ?b] =>
        let E := fresh "E" in
        destruct (a <? b) eqn:E;
        [apply Z.ltb_lt in E | apply Z.ltb_ge in E]
    end; lia.
Qed.

Lemma clamp_bounds (x : Z) : 0 <= clamp x 0 100 <= 100.
Proof.
  unfold clamp.
  repeat match goal with
    | |- context [?a <? ?b] =>
        let E := fresh "E" in
        destruct (a <? b) eqn:E;
        [apply Z.ltb_lt in E | apply Z.ltb_ge in E]
    end; lia.
Qed.

(** C9, as stated, fails: with one error too few ([errorCount = -1]) and ten
    warnings the score is 90 and the error penalty -10, where the same
    input with the negative count replaced by 0 gives 80 and 0. *)
Lemma C9_negative_count_not_clamped :
  let q := calculateQualityScore (stats_of 10 (-1) 10) in
  let q0 := calculateQualityScore (stats_of 10 0 10) in
  score q = 90 /\ score q0 = 80
  /\ error_penalty (breakdown q) = -10 /\ error_penalty (breakdown q0) = 0
  /\ ~ (score q = score q0
        /\ error_penalty (breakdown q) = error_penalty (breakdown q0)
        /\ warning_penalty (breakdown q) = warning_penalty (breakdown q0)
        /\ recommendations q = recommendations q0).
Proof.
  cbv zeta. repeat split; try reflexivity.
  intros [H _]. vm_compute in H. discriminate H.
Qed.

(** C9, amended: a negative count is neither rejected nor clamped.  The
    penalties are the counts as given times 10 and 2, the score is the
    clamp of [100 - errorCount*10 - warningCount*2] on the counts as given,
    which lies in [[0, 100]] and is not below the score with the negative
    counts replaced by 0; the recommendations alone equal those of the input
    with each negative count replaced by 0. *)
Theorem C9_negative_counts_amended :
  forall totalEntries errorCount warningCount : Z,
    errorCount < 0 \/ warningCount < 0 ->
    let q := calculateQualityScore
               (stats_of totalEntries errorCount warningCount) in
    let q0 := calculateQualityScore
                (stats_of totalEntries (Z.max 0 errorCount)
                          (Z.max 0 warningCount)) in
    score q = clamp (100 - errorCount * 10 - warningCount * 2) 0 100
    /\ 0 <= score q <= 100
    /\ score q0 <= score q
    /\ error_penalty (breakdown q) = errorCount * 10
    /\ warning_penalty (breakdown q) = warningCount * 2
    /\ error_count (breakdown q) = errorCount
    /\ warning_count (breakdown q) = warningCount
    /\ recommendations q = recommendations q0.
Proof.
  intros t e w _ q q0. subst q q0.
  rewrite !score_of_counts.
  split; [reflexivity|].
  split; [apply clamp_bounds|].
  split; [apply clamp_antitone; lia|].
  unfold calculateQualityScore at 1 2 3 4.
  destruct (level_count_stats_of t e w) as [-> ->].
  rewrite !int_or_zero_default. cbn [breakdown error_penalty warning_penalty
                                     error_count warning_count].
  repeat (split; [reflexivity|]).
  apply recommendations_negative_as_zero.
Qed.

Lemma C9_negative_counts_amended_witness :
  score (calculateQualityScore (stats_of 10 (-1) 10)) = 90
  /\ error_penalty (breakdown (calculateQualityScore (stats_of 10 (-1) 10)))
     = -10.
Proof.
  assert (H : -1 < 0 \/ 10 < 0) by (left; lia).
  pose proof (C9_negative_counts_amended 10 (-1) 10 H) as W.
  cbv zeta in W.
  destruct W as (Hs & _ & _ & He & _).
  split; [rewrite Hs; reflexivity | rewrite He; reflexivity].
Defined.

End QualityScoring.

(* ================================================================== *)
(** * Plain objects as maps: facts                                     *)
(* ================================================================== *)

Section ObjectFacts.

Context {A : Type}.
Implicit Types (o : JS.object A) (p : string * A).

Lemma insert_by_index_perm p (l : list (string * A)) :
  Permutation (JS.insert_by_index p l) (p :: l).
Proof.
  induction l as [|q t IH]; cbn.
  - apply Permutation_refl.
  - destruct (JS.index_of (fst p) <=? JS.index_of (fst q))%N.
    + apply Permutation_refl.
    + eapply perm_trans; [apply perm_skip, IH | apply perm_swap].
Qed.

Lemma sort_by_index_perm (l : list (string * A)) :
  Permutation (JS.sort_by_index l) l.
Proof.
  induction l as [|p t IH]; cbn.
  - apply perm_nil.
  - eapply perm_trans; [apply insert_by_index_perm | apply perm_skip, IH].
Qed.

Lemma filter_split_perm {B : Type} (f : B -> bool) (l : list B) :
  Permutation (filter f l ++ filter (fun x => negb (f x)) l) l.
Proof.
  induction l as [|x t IH]; cbn.
  - apply perm_nil.
  - destruct (f x); cbn.
    + apply perm_skip, IH.
    + apply Permutation_sym.
      eapply perm_trans; [apply perm_skip, Permutation_sym, IH|].
      apply Permutation_middle.
Qed.

Lemma Object_entries_perm o : Permutation (JS.Object_entries o) o.
Proof.
  unfold JS.Object_entries.
  eapply perm_trans; [|apply filter_split_perm with
                         (f := fun p => JS.is_index (fst p))].
  apply Permutation_app_tail, sort_by_index_perm.
Qed.

Lemma insert_by_index_sorted p (l : list (string * A)) :
  StronglySorted (fun a b => index_le (fst a) (fst b)) l ->
  StronglySorted (fun a b => index_le (fst a) (fst b))
                 (JS.insert_by_index p l).
Proof.
  induction 1 as [|q t Hs IH Hq]; cbn.
  - constructor; constructor.
  - destruct (JS.index_of (fst p) <=? JS.index_of (fst q))%N eqn:E.
    + apply N.leb_le in E.
      constructor; [constructor; assumption|].
      constructor; [exact E|].
      rewrite Forall_forall in Hq |- *. intros r Hr.
      unfold index_le in *. specialize (Hq r Hr). lia.
    + apply N.leb_gt in E.
      constructor; [exact IH|].
      rewrite Forall_forall in Hq |- *. intros r Hr.
      apply (Permutation_in _ (insert_by_index_perm p t)) in Hr.
      destruct Hr as [<- | Hr]; [unfold index_le; lia | apply Hq, Hr].
Qed.

Lemma sort_by_index_sorted (l : list (string * A)) :
  StronglySorted (fun a b => index_le (fst a) (fst b)) (JS.sort_by_index l).
Proof.
  induction l as [|p t IH]; cbn.
  - constructor.
  - apply insert_by_index_sorted, IH.
Qed.

Lemma map_fst_filter (g : string -> bool) (l : list (string * A)) :
  map fst (filter (fun p => g (fst p)) l) = filter g (map fst l).
Proof.
  induction l as [|p t IH]; cbn; [reflexivity|].
  destruct (g (fst p)); cbn; rewrite IH; reflexivity.
Qed.

Lemma StronglySorted_map_fst (R : string -> string -> Prop)
  (l : list (string * A)) :
  StronglySorted (fun a b => R (fst a) (fst b)) l ->
  StronglySorted R (map fst l).
Proof.
  induction 1 as [|q t Hs IH Hq]; cbn; constructor; [exact IH|].
  rewrite Forall_forall in Hq |- *. intros k Hk.
  apply in_map_iff in Hk. destruct Hk as (r & <- & Hr). apply Hq, Hr.
Qed.

(** The key order of [Object.entries]: the array-index keys in ascending
    numeric order, then the other keys in creation order. *)
Lemma Object_entries_keys o :
  exists idx : list string,
    map fst (JS.Object_entries o)
    = idx ++ filter (fun k => negb (JS.is_index k)) (map fst o)
    /\ Permutation idx (filter JS.is_index (map fst o))
    /\ StronglySorted index_le idx.
Proof.
  exists (map fst (JS.sort_by_index
                     (filter (fun p => JS.is_index (fst p)) o))).
  split; [|split].
  - unfold JS.Object_entries. rewrite map_app. f_equal.
    apply (map_fst_filter (fun k => negb (JS.is_index k))).
  - rewrite <- (map_fst_filter JS.is_index).
    apply Permutation_map, sort_by_index_perm.
  - apply StronglySorted_map_fst, sort_by_index_sorted.
Qed.

Lemma filter_none {B : Type} (f : B -> bool) (l : list B) :
  (forall x, In x l -> f x = false) -> filter f l = [].
Proof.
  induction l as [|x t IH]; cbn; intros H; [reflexivity|].
  rewrite (H x) by (left; reflexivity).
  apply IH. intros y Hy. apply H. right. exact Hy.
Qed.

Lemma filter_all {B : Type} (f : B -> bool) (l : list B) :
  (forall x, In x l -> f x = true) -> filter f l = l.
Proof.
  induction l as [|x t IH]; cbn; intros H; [reflexivity|].
  rewrite (H x) by (left; reflexivity). f_equal.
  apply IH. intros y Hy. apply H. right. exact Hy.
Qed.

(** Without array-index keys, [Object.entries] follows creation order. *)
Lemma Object_entries_no_index o :
  (forall k, In k (map fst o) -> JS.is_index k = false) ->
  JS.Object_entries o = o.
Proof.
  intros H. unfold JS.Object_entries.
  rewrite filter_none, filter_all; [reflexivity | |];
    intros p Hp; rewrite (H (fst p)); try reflexivity;
    apply in_map, Hp.
Qed.

End ObjectFacts.

(* ================================================================== *)
(** * Correlation grouping: facts                                      *)
(* ================================================================== *)

Section FirstSeen.

Lemma first_seen_In (k : string) (l : list string) :
  In k (first_seen l) <-> In k l.
Proof.
  induction l as [|a t IH]; cbn; [tauto|].
  rewrite filter_In, IH.
  destruct (String.eqb_spec k a) as [-> | Hne]; cbn.
  - split; intros _; left; reflexivity.
  - split; intros [H | H].
    + left; exact H.
    + right; apply H.
    + left; exact H.
    + right; split; [exact H | reflexivity].
Qed.

Lemma first_seen_NoDup (l : list string) : NoDup (first_seen l).
Proof.
  induction l as [|a t IH]; cbn; constructor.
  - rewrite filter_In. intros [_ H].
    rewrite String.eqb_refl in H. discriminate H.
  - apply NoDup_filter, IH.
Qed.

Lemma first_seen_snoc (k : string) (l : list string) :
  first_seen (l ++ [k])
  = first_seen l ++ (if in_dec string_dec k l then [] else [k]).
Proof.
  induction l as [|a t IH]; cbn [app first_seen].
  - destruct (in_dec string_dec k []) as [[] | _]. reflexivity.
  - rewrite IH, filter_app. cbn [app]. do 2 f_equal.
    destruct (in_dec string_dec k t) as [Hin | Hout];
      destruct (in_dec string_dec k (a :: t)) as [Hin' | Hout']; cbn.
    + reflexivity.
    + exfalso. apply Hout'. right. exact Hin.
    + destruct Hin' as [-> | Hin']; [|contradiction].
      rewrite String.eqb_refl. reflexivity.
    + destruct (String.eqb_spec k a) as [-> | Hne]; cbn; [|reflexivity].
      exfalso. apply Hout'. left. reflexivity.
Qed.

End FirstSeen.

Section Grouping.

Variable key : LogEntry -> string.

Local Notation "'step'" :=
  (fun (acc : JS.object (list LogEntry)) (entry : LogEntry) =>
     group_step (key entry) acc entry) (only parsing).

Lemma own_map_in {B : Type} (f : string -> B) (ks : list string) (k : string) :
  In k ks -> JS.own (map (fun k' => (k', f k')) ks) k = Some (f k).
Proof.
  induction ks as [|a t IH]; cbn; [tauto|].
  intros H. destruct (String.eqb_spec a k) as [-> | Hne]; [reflexivity|].
  destruct H as [H | H]; [contradiction | apply IH, H].
Qed.

Lemma own_map_notin {B : Type} (f : string -> B) (ks : list string)
  (k : string) :
  ~ In k ks -> JS.own (map (fun k' => (k', f k')) ks) k = None.
Proof.
  induction ks as [|a t IH]; cbn; [reflexivity|].
  intros H. destruct (String.eqb_spec a k) as [-> | Hne].
  - exfalso. apply H. left. reflexivity.
  - apply IH. intros Hin. apply H. right. exact Hin.
Qed.

Lemma acc_set_map_in (f : string -> list LogEntry) (ks : list string)
  (k : string) (v : list LogEntry) :
  NoDup ks -> In k ks ->
  acc_set (map (fun k' => (k', f k')) ks) k v
  = map (fun k' => (k', if (k' =? k)%string then v else f k')) ks.
Proof.
  induction 1 as [|a t Hnotin Hnd IH]; cbn; [tauto|].
  intros Hin. destruct (String.eqb_spec a k) as [-> | Hne].
  - f_equal. apply map_ext_in. intros k' Hk'.
    destruct (String.eqb_spec k' k) as [-> | _]; [contradiction | reflexivity].
  - f_equal. apply IH. destruct Hin as [H | H]; [contradiction | exact H].
Qed.

Lemma acc_set_map_notin (f : string -> list LogEntry) (ks : list string)
  (k : string) (v : list LogEntry) :
  ~ In k ks ->
  acc_set (map (fun k' => (k', f k')) ks) k v
  = map (fun k' => (k', f k')) ks ++ [(k, v)].
Proof.
  induction ks as [|a t IH]; cbn; [reflexivity|].
  intros H. destruct (String.eqb_spec a k) as [-> | Hne].
  - exfalso. apply H. left. reflexivity.
  - f_equal. apply IH. intros Hin. apply H. right. exact Hin.
Qed.

Lemma with_key_snoc (k : string) (P : list LogEntry) (e : LogEntry) :
  with_key key k (P ++ [e])
  = with_key key k P ++ (if (key e =? k)%string then [e] else []).
Proof. unfold with_key. rewrite filter_app. reflexivity. Qed.

Lemma with_key_absent (k : string) (P : list LogEntry) :
  ~ In k (map key P) -> with_key key k P = [].
Proof.
  intros H. apply filter_none. intros e He.
  destruct (String.eqb_spec (key e) k) as [<- | _]; [|reflexivity].
  exfalso. apply H, in_map, He.
Qed.

Lemma proto_get_not_inherited (k : string) :
  JS.inherited k = false -> JS.proto_get k = JS.JUndefined.
Proof.
  intros H. unfold JS.proto_get. rewrite H.
  destruct (String.eqb_spec k "__proto__") as [-> | _]; [discriminate H|].
  destruct (String.eqb_spec k "constructor") as [-> | _]; [discriminate H|].
  reflexivity.
Qed.

(** One step of the reducer on the groups of a prefix gives the groups of
    the prefix extended by the entry. *)
Lemma group_step_groups_of (P : list LogEntry) (e : LogEntry) :
  JS.inherited (key e) = false ->
  step (groups_of key P) e = JS.Normal (groups_of key (P ++ [e])).
Proof.
  intros Hk. unfold group_step, acc_get, groups_of.
  rewrite map_app. cbn [map]. rewrite first_seen_snoc.
  destruct (in_dec string_dec (key e) (map key P)) as [Hin | Hout].
  - rewrite app_nil_r.
    assert (Hfs : In (key e) (first_seen (map key P)))
      by (apply first_seen_In, Hin).
    rewrite (own_map_in (fun k => with_key key k P) _ _ Hfs). cbn.
    rewrite (own_map_in (fun k => with_key key k P) _ _ Hfs).
    rewrite acc_set_map_in by (auto using first_seen_NoDup).
    f_equal. apply map_ext. intros k.
    rewrite with_key_snoc, String.eqb_sym.
    destruct (String.eqb_spec (key e) k) as [<- | _];
      [reflexivity | rewrite app_nil_r; reflexivity].
  - assert (Hfs : ~ In (key e) (first_seen (map key P)))
      by (rewrite first_seen_In; exact Hout).
    rewrite (own_map_notin (fun k => with_key key k P) _ _ Hfs).
    rewrite (proto_get_not_inherited _ Hk). cbn.
    rewrite acc_set_map_notin by exact Hfs.
    assert (Hown : forall acc v,
               JS.own acc (key e) = None ->
               JS.own (acc ++ [(key e, v)]) (key e) = Some v
               /\ forall v', acc_set (acc ++ [(key e, v)]) (key e) v'
                             = acc ++ [(key e, v')]).
    { clear. induction acc as [|[a x] t IH]; cbn; intros v H.
      - rewrite String.eqb_refl. split; reflexivity.
      - destruct (a =? key e)%string; [discriminate H|].
        destruct (IH v H) as [H1 H2]. split; [exact H1|].
        intros v'. rewrite H2. reflexivity. }
    destruct (Hown _ (@nil LogEntry)
                (own_map_notin (fun k => with_key key k P) _ _ Hfs))
      as [-> ->].
    f_equal. rewrite map_app. cbn [map]. f_equal.
    + apply map_ext_in. intros k Hin.
      rewrite with_key_snoc.
      destruct (String.eqb_spec (key e) k) as [<- | _];
        [contradiction | rewrite app_nil_r; reflexivity].
    + rewrite with_key_snoc, String.eqb_refl, with_key_absent by exact Hout.
      reflexivity.
Qed.

Lemma reduce_groups_of (S P : list LogEntry) :
  (forall e, In e S -> JS.inherited (key e) = false) ->
  reduce step S (groups_of key P) = JS.Normal (groups_of key (P ++ S)).
Proof.
  revert P. induction S as [|e t IH]; cbn [reduce]; intros P H.
  - rewrite app_nil_r. reflexivity.
  - rewrite group_step_groups_of by (apply H; left; reflexivity).
    cbn [JS.bind]. rewrite IH by (intros x Hx; apply H; right; exact Hx).
    rewrite <- app_assoc. reflexivity.
Qed.

(** The reducer computes [groups_of] when no key collides with a name
    inherited from [Object.prototype]. *)
Lemma reduce_closed_form (E : list LogEntry) :
  (forall e, In e E -> JS.inherited (key e) = false) ->
  reduce step E [] = JS.Normal (groups_of key E).
Proof. intros H. apply (reduce_groups_of E [] H). Qed.

(** It throws at the first entry whose key is such a name. *)
Lemma reduce_throws (P S : list LogEntry) (e : LogEntry) :
  (forall x, In x P -> JS.inherited (key x) = false) ->
  JS.inherited (key e) = true ->
  reduce step (P ++ e :: S) []
  = JS.TypeError "acc[groupId].push is not a function".
Proof.
  intros HP He.
  assert (G : forall Q R acc, 
             reduce step (Q ++ R) acc
             = JS.bind (reduce step Q acc) (reduce step R)).
  { induction Q as [|q Q IH]; cbn; intros R acc; [reflexivity|].
    destruct (step acc q); cbn; [apply IH | reflexivity]. }
  rewrite G, (reduce_closed_form P HP). cbn [JS.bind reduce].
  assert (Hstep : step (groups_of key P) e
                  = JS.TypeError "acc[groupId].push is not a function").
  { unfold group_step, acc_get.
    assert (Hout : ~ In (key e) (first_seen (map key P))).
    { rewrite first_seen_In, in_map_iff. intros (x & Hx & Hin).
      rewrite <- Hx, (HP x Hin) in He. discriminate He. }
    unfold groups_of.
    rewrite (own_map_notin (fun k => with_key key k P) _ _ Hout).
    assert (Ht : JS.ToBoolean (JS.proto_get (key e)) = true).
    { unfold JS.proto_get. rewrite He.
      destruct (key e =? "__proto__")%string;
        [|destruct (key e =? "constructor")%string]; reflexivity. }
    cbn [slot_truthy]. rewrite Ht. cbn [negb].
    rewrite (own_map_notin (fun k => with_key key k P) _ _ Hout).
    reflexivity. }
  rewrite Hstep. reflexivity.
Qed.

End Grouping.

Section GroupingProperties.

Variable key : LogEntry -> string.

Lemma Subseq_filter {B : Type} (f : B -> bool) (l : list B) :
  Subseq (filter f l) l.
Proof.
  induction l as [|x t IH]; cbn; [constructor|].
  destruct (f x); constructor; exact IH.
Qed.

Lemma flat_map_ext_in {B C : Type} (f g : B -> list C) (l : list B) :
  (forall x, In x l -> f x = g x) -> flat_map f l = flat_map g l.
Proof.
  induction l as [|x t IH]; cbn; intros H; [reflexivity|].
  rewrite (H x) by (left; reflexivity). f_equal.
  apply IH. intros y Hy. apply H. right. exact Hy.
Qed.

Lemma with_key_without (k k' : string) (E : list LogEntry) :
  k' <> k ->
  with_key key k' (filter (fun e => negb (key e =? k)%string) E)
  = with_key key k' E.
Proof.
  intros Hne. unfold with_key.
  induction E as [|e t IH]; cbn; [reflexivity|].
  destruct (String.eqb_spec (key e) k) as [Hk | Hk]; cbn.
  - destruct (String.eqb_spec (key e) k') as [Hk' | _]; [congruence | exact IH].
  - destruct (key e =? k')%string; rewrite IH; reflexivity.
Qed.

(** Splitting a sequence by key, over distinct keys that cover it, loses
    and duplicates nothing. *)
Lemma with_key_partition (ks : list string) :
  NoDup ks ->
  forall E : list LogEntry,
    (forall e, In e E -> In (key e) ks) ->
    Permutation (flat_map (fun k => with_key key k E) ks) E.
Proof.
  induction 1 as [|k t Hnotin Hnd IH]; intros E Hcov; cbn.
  - destruct E as [|e E]; [apply perm_nil|].
    destruct (Hcov e (or_introl eq_refl)).
  - set (E' := filter (fun e => negb (key e =? k)%string) E).
    assert (Hrest : flat_map (fun k' => with_key key k' E) t
                    = flat_map (fun k' => with_key key k' E') t).
    { apply flat_map_ext_in. intros k' Hk'. symmetry.
      apply with_key_without. intros ->. contradiction. }
    rewrite Hrest.
    eapply perm_trans;
      [| apply (filter_split_perm (fun e => (key e =? k)%string) E)].
    apply Permutation_app_head. apply IH.
    intros e He. unfold E' in He. apply filter_In in He.
    destruct He as [He Hk].
    destruct (Hcov e He) as [Heq | Hin]; [|exact Hin].
    rewrite <- Heq, String.eqb_refl in Hk. discriminate Hk.
Qed.

Lemma flat_map_snd_groups_of (E : list LogEntry) :
  flat_map snd (groups_of key E)
  = flat_map (fun k => with_key key k E) (first_seen (map key E)).
Proof.
  unfold groups_of.
  induction (first_seen (map key E)) as [|k t IH]; cbn; [reflexivity|].
  rewrite IH. reflexivity.
Qed.

Lemma groups_of_partition (E : list LogEntry) :
  Permutation (flat_map snd (groups_of key E)) E.
Proof.
  rewrite flat_map_snd_groups_of.
  apply with_key_partition; [apply first_seen_NoDup|].
  intros e He. apply first_seen_In, in_map, He.
Qed.

Lemma map_fst_groups_of (E : list LogEntry) :
  map fst (groups_of key E) = first_seen (map key E).
Proof.
  unfold groups_of. rewrite map_map. cbn. apply map_id.
Qed.

Lemma in_groups_of (E : list LogEntry) (k : string) (es : list LogEntry) :
  In (k, es) (groups_of key E) ->
  es = with_key key k E /\ exists e, In e E /\ key e = k.
Proof.
  unfold groups_of. rewrite in_map_iff. intros (k' & Heq & Hin).
  injection Heq as -> <-. split; [reflexivity|].
  apply first_seen_In, in_map_iff in Hin.
  destruct Hin as (e & He & Hin). exists e. split; assumption.
Qed.

Lemma with_key_perm (k : string) (E E' : list LogEntry) :
  Permutation E E' -> Permutation (with_key key k E) (with_key key k E').
Proof.
  unfold with_key.
  induction 1 as [|x l l' _ IH|x y l|l l' l'' _ IH1 _ IH2]; cbn.
  - apply perm_nil.
  - destruct (key x =? k)%string; [apply perm_skip|]; exact IH.
  - destruct (key y =? k)%string, (key x =? k)%string;
      try apply Permutation_refl. apply perm_swap.
  - eapply perm_trans; eassumption.
Qed.

(** The groups of a reordered input are the groups of the input, up to
    their order and the order inside each group. *)
Lemma groups_of_sizes_perm (E E' : list LogEntry) :
  Permutation E E' ->
  Permutation
    (map (fun g => (fst g, List.length (snd g))) (groups_of key E))
    (map (fun k => (k, List.length (with_key key k E')))
         (first_seen (map key E'))).
Proof.
  intros HP. unfold groups_of. rewrite map_map. cbn [fst snd].
  eapply perm_trans.
  - apply Permutation_map.
    apply NoDup_Permutation with (l' := first_seen (map key E'));
      try apply first_seen_NoDup.
    intros k. rewrite !first_seen_In.
    split; apply Permutation_in;
      [|apply Permutation_sym]; apply Permutation_map, HP.
  - erewrite map_ext; [apply Permutation_refl|].
    intros k. cbn. f_equal.
    apply Permutation_length, with_key_perm, HP.
Qed.

Lemma with_key_In (E : list LogEntry) (e : LogEntry) :
  In e E -> In e (with_key key (key e) E).
Proof.
  intros H. apply filter_In. split; [exact H | apply String.eqb_refl].
Qed.

End GroupingProperties.

Section CorrelationGrouper.

Import EnhancedLogViewerWithFilters.

Lemma str_or_present (a : option string) (b s : string) :
  a = Some s -> s <> "" -> str_or a b = s.
Proof.
  intros -> Hs. cbn. destruct (String.eqb_spec s ""); [contradiction | reflexivity].
Qed.

Lemma str_or_missing (a : option string) (b : string) :
  missing a -> str_or a b = b.
Proof. intros [-> | ->]; reflexivity. Qed.

Lemma groupId_correlation (entry : LogEntry) (s : string) :
  tf_req_id entry = Some s -> s <> "" -> groupId entry = s.
Proof. intros H Hs. unfold groupId. apply str_or_present; assumption. Qed.

Lemma groupId_transport (entry : LogEntry) (s : string) :
  missing (tf_req_id entry) -> tf_http_trans_id entry = Some s -> s <> "" ->
  groupId entry = s.
Proof.
  intros Hm H Hs. unfold groupId.
  rewrite (str_or_missing _ _ Hm). apply str_or_present; assumption.
Qed.

Lemma groupId_ungrouped (entry : LogEntry) :
  missing (tf_req_id entry) -> missing (tf_http_trans_id entry) ->
  groupId entry = "ungrouped".
Proof.
  intros Hm Hm'. unfold groupId. rewrite (str_or_missing _ _ Hm).
  apply str_or_missing, Hm'.
Qed.

(** C2: the group key of an entry is its [tf_req_id] when that is present and
    not empty, else its [tf_http_trans_id] when that is present and not
    empty, else ["ungrouped"]; three entries of correlation id X, two
    without correlation id but of transport id Y and one with neither give
    exactly the groups X (3 entries), Y (2) and ungrouped (1), listed in
    that order when the entries come in that order, and whatever the order
    of the six entries otherwise. *)
Theorem C2_group_key_resolution :
  (forall entry : LogEntry,
      (forall s, tf_req_id entry = Some s -> s <> "" -> groupId entry = s)
      /\ (forall s, missing (tf_req_id entry) ->
                    tf_http_trans_id entry = Some s -> s <> "" ->
                    groupId entry = s)
      /\ (missing (tf_req_id entry) -> missing (tf_http_trans_id entry) ->
          groupId entry = "ungrouped"))
  /\ (forall x1 x2 x3 y1 y2 u : LogEntry,
        tf_req_id x1 = Some "X" -> tf_req_id x2 = Some "X" ->
        tf_req_id x3 = Some "X" ->
        missing (tf_req_id y1) -> tf_http_trans_id y1 = Some "Y" ->
        missing (tf_req_id y2) -> tf_http_trans_id y2 = Some "Y" ->
        missing (tf_req_id u) -> missing (tf_http_trans_id u) ->
        (exists o,
            groupEntries [x1; x2; x3; y1; y2; u] = JS.Normal o
            /\ JS.Object_entries o
               = [("X", [x1; x2; x3]); ("Y", [y1; y2]); ("ungrouped", [u])])
        /\ (forall E,
              Permutation E [x1; x2; x3; y1; y2; u] ->
              exists o,
                groupEntries E = JS.Normal o
                /\ Permutation
                     (map (fun g => (fst g, List.length (snd g)))
                          (JS.Object_entries o))
                     [("X", 3%nat); ("Y", 2%nat); ("ungrouped", 1%nat)])).
Proof.
  split.
  - intros entry. split; [|split].
    + apply groupId_correlation.
    + apply groupId_transport.
    + apply groupId_ungrouped.
  - intros x1 x2 x3 y1 y2 u H1 H2 H3 M4 H4 M5 H5 M6 M6'.
    assert (K1 : groupId x1 = "X")
      by (apply groupId_correlation; [exact H1 | discriminate]).
    assert (K2 : groupId x2 = "X")
      by (apply groupId_correlation; [exact H2 | discriminate]).
    assert (K3 : groupId x3 = "X")
      by (apply groupId_correlation; [exact H3 | discriminate]).
    assert (K4 : groupId y1 = "Y")
      by (apply groupId_transport; [exact M4 | exact H4 | discriminate]).
    assert (K5 : groupId y2 = "Y")
      by (apply groupId_transport; [exact M5 | exact H5 | discriminate]).
    assert (K6 : groupId u = "ungrouped")
      by (apply groupId_ungrouped; assumption).
    assert (Hkeys : forall e, In e [x1; x2; x3; y1; y2; u] ->
                          JS.inherited (groupId e) = false).
    { intros e He. cbn in He.
      repeat (destruct He as [<- | He];
              [rewrite ?K1, ?K2, ?K3, ?K4, ?K5, ?K6; reflexivity|]).
      destruct He. }
    split.
    + exists (groups_of groupId [x1; x2; x3; y1; y2; u]). split.
      * apply (reduce_closed_form groupId), Hkeys.
      * unfold groups_of, with_key. cbn [map filter].
        rewrite K1, K2, K3, K4, K5, K6. reflexivity.
    + intros E HP. exists (groups_of groupId E). split.
      * apply (reduce_closed_form groupId).
        intros e He. apply Hkeys, (Permutation_in _ HP), He.
      * eapply perm_trans;
          [apply Permutation_map, Object_entries_perm|].
        eapply perm_trans; [apply (groups_of_sizes_perm groupId _ _ HP)|].
        unfold with_key. cbn [map filter first_seen].
        rewrite K1, K2, K3, K4, K5, K6. apply Permutation_refl.
Qed.

Lemma C2_group_key_resolution_witness :
  exists o,
    groupEntries
      [ sample_entry "1" (Some "X") None; sample_entry "2" (Some "X") None;
        sample_entry "3" (Some "X") (Some "Y");
        sample_entry "4" None (Some "Y"); sample_entry "5" (Some "") (Some "Y");
        sample_entry "6" None (Some "") ] = JS.Normal o
    /\ map (fun g => (fst g, List.length (snd g))) (JS.Object_entries o)
       = [("X", 3%nat); ("Y", 2%nat); ("ungrouped", 1%nat)].
Proof.
  destruct C2_group_key_resolution as [_ H].
  destruct (H (sample_entry "1" (Some "X") None)
              (sample_entry "2" (Some "X") None)
              (sample_entry "3" (Some "X") (Some "Y"))
              (sample_entry "4" None (Some "Y"))
              (sample_entry "5" (Some "") (Some "Y"))
              (sample_entry "6" None (Some "")))
    as [(o & Ho & Hg) _];
    try reflexivity; try (left; reflexivity); try (right; reflexivity).
  exists o. split; [exact Ho | rewrite Hg; reflexivity].
Defined.

(** The revision of the viewer without filters groups by [tf_req_id] alone:
    there the entries without correlation id all land in ["ungrouped"],
    whatever their transport id. *)
Remark EnhancedLogViewer_groups_by_request_id_only :
  EnhancedLogViewer.groupEntries
    [ sample_entry "1" (Some "X") None; sample_entry "2" None (Some "Y");
      sample_entry "3" None (Some "Y"); sample_entry "4" None None ]
  = JS.Normal
      [ ("X", [sample_entry "1" (Some "X") None]);
        ("ungrouped", [ sample_entry "2" None (Some "Y");
                        sample_entry "3" None (Some "Y");
                        sample_entry "4" None None ]) ].
Proof. reflexivity. Qed.

(** C3, as stated, fails on two kinds of key.  Keys that are array indices
    are enumerated in numeric order, whatever the order they were met in;
    and a key naming a property inherited from [Object.prototype] makes the
    reducer throw, so that no grouping is produced at all. *)
Lemma C3_grouping_counterexample :
  (let E := [sample_entry "a" (Some "2") None;
             sample_entry "b" (Some "1") None] in
   exists o,
     groupEntries E = JS.Normal o
     /\ first_seen (map groupId E) = ["2"; "1"]
     /\ map fst (JS.Object_entries o) = ["1"; "2"]
     /\ map fst (JS.Object_entries o) <> first_seen (map groupId E))
  /\ (forall o,
        groupEntries [sample_entry "a" (Some "constructor") None]
        <> JS.Normal o).
Proof.
  split.
  - eexists. split; [reflexivity|]. split; [reflexivity|].
    split; [reflexivity | discriminate].
  - intros o H. vm_compute in H. discriminate H.
Qed.

(** C3, amended: when no group key names a property inherited from
    [Object.prototype], the grouping is a partition of the input: the
    groups together hold the entries of the input, each once; group keys
    are distinct; every entry is in the group of its key; a group holds
    exactly the entries of its key, in input order, and is not empty.  The
    groups are enumerated with the array-index keys first, in ascending
    numeric order, followed by the other keys in the order first met; when
    no key is an array index this is the order the keys were first met. *)
Theorem C3_grouping_partition_amended :
  forall E : list LogEntry,
    (forall e, In e E -> JS.inherited (groupId e) = false) ->
    exists o,
      groupEntries E = JS.Normal o
      /\ Permutation (flat_map snd (JS.Object_entries o)) E
      /\ List.length (flat_map snd (JS.Object_entries o)) = List.length E
      /\ NoDup (map fst (JS.Object_entries o))
      /\ (forall e, In e E ->
            exists es, In (groupId e, es) (JS.Object_entries o) /\ In e es)
      /\ (forall k es, In (k, es) (JS.Object_entries o) ->
            es = with_key groupId k E /\ es <> [] /\ Subseq es E)
      /\ (exists idx,
            map fst (JS.Object_entries o)
            = idx ++ filter (fun k => negb (JS.is_index k))
                            (first_seen (map groupId E))
            /\ Permutation idx
                 (filter JS.is_index (first_seen (map groupId E)))
            /\ StronglySorted index_le idx)
      /\ ((forall e, In e E -> JS.is_index (groupId e) = false) ->
          map fst (JS.Object_entries o) = first_seen (map groupId E)).
Proof.
  intros E Hk.
  exists (groups_of groupId E).
  pose proof (Object_entries_perm (groups_of groupId E)) as Hperm.
  assert (Hflat : Permutation
                    (flat_map snd (JS.Object_entries (groups_of groupId E))) E).
  { eapply perm_trans; [|apply groups_of_partition].
    apply Permutation_flat_map, Hperm. }
  split; [apply (reduce_closed_form groupId E Hk)|].
  split; [exact Hflat|].
  split; [apply Permutation_length, Hflat|].
  split.
  { apply (Permutation_NoDup
             (Permutation_map fst (Permutation_sym Hperm))).
    rewrite map_fst_groups_of. apply first_seen_NoDup. }
  split.
  { intros e He. exists (with_key groupId (groupId e) E). split.
    - apply (Permutation_in _ (Permutation_sym Hperm)).
      unfold groups_of.
      apply (in_map (fun k => (k, with_key groupId k E))).
      apply first_seen_In, in_map, He.
    - apply with_key_In, He. }
  split.
  { intros k es Hin.
    apply (Permutation_in _ Hperm) in Hin.
    apply in_groups_of in Hin. destruct Hin as (-> & e & He & Hke).
    split; [reflexivity|]. split.
    - intros Hnil. pose proof (with_key_In groupId E e He) as Hi.
      rewrite Hke, Hnil in Hi. destruct Hi.
    - apply Subseq_filter. }
  split.
  { destruct (Object_entries_keys (groups_of groupId E))
      as (idx & H1 & H2 & H3).
    rewrite map_fst_groups_of in H1, H2.
    exists idx. auto. }
  intros Hni. rewrite Object_entries_no_index.
  - apply map_fst_groups_of.
  - intros k Hin. rewrite map_fst_groups_of in Hin.
    apply first_seen_In, in_map_iff in Hin.
    destruct Hin as (e & <- & He). apply Hni, He.
Qed.

Lemma C3_grouping_partition_amended_witness :
  exists o,
    groupEntries [ sample_entry "a" (Some "2") None;
                   sample_entry "b" None (Some "t");
                   sample_entry "c" (Some "1") None;
                   sample_entry "d" (Some "2") None ] = JS.Normal o
    /\ List.length (flat_map snd (JS.Object_entries o)) = 4%nat.
Proof.
  destruct (C3_grouping_partition_amended
              [ sample_entry "a" (Some "2") None;
                sample_entry "b" None (Some "t");
                sample_entry "c" (Some "1") None;
                sample_entry "d" (Some "2") None ])
    as (o & Ho & _ & Hlen & _).
  - intros e He. cbn in He.
    repeat (destruct He as [<- | He]; [reflexivity|]). destruct He.
  - exists o. split; [exact Ho | exact Hlen].
Defined.

End CorrelationGrouper.

(* ================================================================== *)
(** * Filtering: facts                                                 *)
(* ================================================================== *)

Section FilterEngine.

Import EnhancedLogViewerWithFilters.

Lemma active_inert (f : option string) : inert_choice f -> active f = None.
Proof. intros [-> | [-> | ->]]; reflexivity. Qed.

Lemma dynamic_match_inert (entry : LogEntry) (df : DynamicFilter) :
  inert_dynamic df -> dynamic_match entry df = true.
Proof.
  unfold dynamic_match. intros [-> | ->]; cbn; [reflexivity|].
  rewrite orb_true_r. reflexivity.
Qed.

(** The dynamic filters act as one conjunction on top of the fixed ones. *)
Lemma applyAllFilters_dynamic (filters : Filters) (dfs : list DynamicFilter)
  (E : list LogEntry) :
  applyAllFilters filters dfs E
  = filter (fun entry => forallb (dynamic_match entry) dfs)
           (applyAllFilters filters [] E).
Proof.
  unfold applyAllFilters at 1.
  destruct dfs as [|df dfs].
  - cbn [List.length Nat.ltb Nat.leb]. symmetry. apply filter_all.
    reflexivity.
  - reflexivity.
Qed.

Lemma applyAllFilters_fixed_inert (filters : Filters) (E : list LogEntry) :
  inert_choice (f_operation filters) -> inert_choice (f_level filters) ->
  f_search filters = "" -> f_showRead filters = true ->
  applyAllFilters filters [] E = E.
Proof.
  intros Ho Hl Hs Hr. unfold applyAllFilters.
  rewrite (active_inert _ Ho), (active_inert _ Hl), Hs, Hr. reflexivity.
Qed.

(** C4: a filter specification all of whose clauses are inert (operation
    and level unset or ["all"], no search text, read entries shown, every
    dynamic filter without field or without value) returns the entries
    unchanged, in the same order; a dynamic filter without field or without
    value rejects no entry. *)
Theorem C4_inert_filter_identity :
  forall (E : list LogEntry) (filters : Filters) (dfs : list DynamicFilter),
    inert_choice (f_operation filters) ->
    inert_choice (f_level filters) ->
    f_search filters = "" ->
    f_showRead filters = true ->
    (forall df, In df dfs -> inert_dynamic df) ->
    applyAllFilters filters dfs E = E
    /\ (forall entry df, In df dfs -> dynamic_match entry df = true).
Proof.
  intros E filters dfs Ho Hl Hs Hr Hd. split.
  - rewrite applyAllFilters_dynamic, applyAllFilters_fixed_inert by assumption.
    apply filter_all. intros entry _. apply forallb_forall.
    intros df Hin. apply dynamic_match_inert, Hd, Hin.
  - intros entry df Hin. apply dynamic_match_inert, Hd, Hin.
Qed.

Lemma C4_inert_filter_identity_witness :
  applyAllFilters (mkFilters (Some "all") None "" "" true)
                  [mkDynamicFilter "level" ""; mkDynamicFilter "" "x"]
                  [sample_entry "1" (Some "X") None; sample_entry "2" None None]
  = [sample_entry "1" (Some "X") None; sample_entry "2" None None].
Proof.
  apply C4_inert_filter_identity.
  - right; right; reflexivity.
  - left; reflexivity.
  - reflexivity.
  - reflexivity.
  - intros df [<- | [<- | []]]; [right | left]; reflexivity.
Defined.

Lemma toLowerCase_nonempty (s : string) : s <> "" -> JS.toLowerCase s <> "".
Proof. destruct s; [congruence | discriminate]. Qed.

Lemma includes_empty_hay (needle : string) :
  needle <> "" -> JS.includes "" needle = false.
Proof. destruct needle; [congruence | reflexivity]. Qed.

Lemma fieldValue_cases (entry : LogEntry) (df : DynamicFilter) :
  fieldValue entry df
  = if JS.ToBoolean (entry_get entry (field df))
    then entry_get entry (field df)
    else if JS.ToBoolean (raw_data_get entry (field df))
         then raw_data_get entry (field df)
         else JS.JStr "".
Proof.
  unfold fieldValue, JS.or.
  destruct (JS.ToBoolean (entry_get entry (field df))) eqn:E1.
  - rewrite E1. reflexivity.
  - destruct (JS.ToBoolean (raw_data_get entry (field df))) eqn:E2;
      rewrite ?E2; reflexivity.
Qed.

Lemma dynamic_match_active (entry : LogEntry) (df : DynamicFilter) :
  field df <> "" -> value df <> "" ->
  dynamic_match entry df
  = JS.includes (JS.toLowerCase (JS.ToString (fieldValue entry df)))
                (JS.toLowerCase (value df)).
Proof.
  intros Hf Hv. unfold dynamic_match.
  destruct (String.eqb_spec (field df) ""); [contradiction|].
  destruct (String.eqb_spec (value df) ""); [contradiction|].
  reflexivity.
Qed.

(** A field that neither the entry nor its [raw_data] has, and that no
    plain object inherits, resolves to the empty string. *)
Lemma fieldValue_absent (entry : LogEntry) (df : DynamicFilter) :
  JS.own (own_properties entry) (field df) = None ->
  (forall attrs, raw_data entry = Some attrs ->
                 JS.own attrs (field df) = None) ->
  JS.inherited (field df) = false ->
  fieldValue entry df = JS.JStr "".
Proof.
  intros Hown Hattr Hinh. rewrite fieldValue_cases.
  assert (E1 : entry_get entry (field df) = JS.JUndefined).
  { unfold entry_get, JS.get. rewrite Hown.
    apply proto_get_not_inherited, Hinh. }
  assert (E2 : JS.ToBoolean (raw_data_get entry (field df)) = false).
  { unfold raw_data_get. destruct (raw_data entry) as [attrs|]; [|reflexivity].
    unfold JS.get. rewrite (Hattr attrs eq_refl).
    rewrite (proto_get_not_inherited _ Hinh). reflexivity. }
  rewrite E1, E2. reflexivity.
Qed.

(** C5, as stated, fails on two kinds of field.  A field the entry has with
    a falsy value ([read: false]) is passed over as if absent, so a filter
    on its printed value rejects the entry; and a field that neither the
    entry nor its attributes have, but that every plain object inherits
    ([constructor]), resolves to the inherited method, so a filter on it
    can keep the entry. *)
Lemma C5_dynamic_filter_counterexample :
  let entry := sample_entry "1" (Some "X") None in
  (present (own_properties entry) "read" = Some (JS.JBool false)
   /\ match_present entry (mkDynamicFilter "read" "false") = true
   /\ applyAllFilters no_filters [mkDynamicFilter "read" "false"] [entry]
      = [])
  /\ (JS.own (own_properties entry) "constructor" = None
      /\ raw_data entry = None
      /\ applyAllFilters no_filters [mkDynamicFilter "constructor" "native"]
                         [entry]
         = [entry]).
Proof. cbv zeta. repeat split; reflexivity. Qed.

(** C5, amended: a dynamic filter with a field and a value resolves the
    field to [entry[field]] when that is truthy, else to [raw_data[field]]
    when that is truthy, else to the empty string, so that a value that is
    there but falsy ([false], [0], [null], the empty string) counts as
    absent; the entry passes iff the value is a case-insensitive substring
    of the printed resolved value, and an entry is kept only if it passes
    every dynamic filter.  Hence a filter naming a field that neither the
    entry nor its [raw_data] has and that is not inherited from
    [Object.prototype] rejects the entry. *)
Theorem C5_dynamic_filter_amended :
  forall (entry : LogEntry) (df : DynamicFilter),
    field df <> "" -> value df <> "" ->
    let own_v := entry_get entry (field df) in
    let attr_v := raw_data_get entry (field df) in
    (JS.ToBoolean own_v = true -> fieldValue entry df = own_v)
    /\ (JS.ToBoolean own_v = false -> JS.ToBoolean attr_v = true ->
        fieldValue entry df = attr_v)
    /\ (JS.ToBoolean own_v = false -> JS.ToBoolean attr_v = false ->
        fieldValue entry df = JS.JStr "")
    /\ dynamic_match entry df
       = JS.includes (JS.toLowerCase (JS.ToString (fieldValue entry df)))
                     (JS.toLowerCase (value df))
    /\ (forall filters dfs E,
          In entry (applyAllFilters filters dfs E) <->
          In entry (applyAllFilters filters [] E)
          /\ forall df', In df' dfs -> dynamic_match entry df' = true)
    /\ (JS.own (own_properties entry) (field df) = None ->
        (forall attrs, raw_data entry = Some attrs ->
                       JS.own attrs (field df) = None) ->
        JS.inherited (field df) = false ->
        dynamic_match entry df = false
        /\ forall filters dfs E,
             In df dfs -> ~ In entry (applyAllFilters filters dfs E)).
Proof.
  intros entry df Hf Hv own_v attr_v. subst own_v attr_v.
  pose proof (fieldValue_cases entry df) as Hc.
  split; [intros E1; rewrite Hc, E1; reflexivity|].
  split; [intros E1 E2; rewrite Hc, E1, E2; reflexivity|].
  split; [intros E1 E2; rewrite Hc, E1, E2; reflexivity|].
  split; [apply dynamic_match_active; assumption|].
  assert (Hand : forall filters dfs E,
             In entry (applyAllFilters filters dfs E) <->
             In entry (applyAllFilters filters [] E)
             /\ forall df', In df' dfs -> dynamic_match entry df' = true).
  { intros filters dfs E.
    rewrite applyAllFilters_dynamic, filter_In, forallb_forall. tauto. }
  split; [exact Hand|].
  intros Hown Hattr Hinh.
  assert (Hm : dynamic_match entry df = false).
  { rewrite dynamic_match_active by assumption.
    rewrite (fieldValue_absent entry df Hown Hattr Hinh). cbn.
    apply includes_empty_hay, toLowerCase_nonempty, Hv. }
  split; [exact Hm|].
  intros filters dfs E Hin Hkept.
  apply Hand in Hkept. destruct Hkept as [_ Hall].
  rewrite (Hall df Hin) in Hm. discriminate Hm.
Qed.

Lemma C5_dynamic_filter_amended_witness :
  dynamic_match (sample_entry "1" (Some "X") None)
                (mkDynamicFilter "tf_req_id" "x") = true
  /\ dynamic_match (sample_entry "1" (Some "X") None)
                   (mkDynamicFilter "tf_module" "x") = false.
Proof.
  split.
  - assert (Hf : "tf_req_id" <> "") by discriminate.
    assert (Hv : "x" <> "") by discriminate.
    destruct (C5_dynamic_filter_amended
                (sample_entry "1" (Some "X") None)
                (mkDynamicFilter "tf_req_id" "x") Hf Hv)
      as (_ & _ & _ & Hm & _).
    rewrite Hm. reflexivity.
  - assert (Hf : "tf_module" <> "") by discriminate.
    assert (Hv : "x" <> "") by discriminate.
    destruct (C5_dynamic_filter_amended
                (sample_entry "1" (Some "X") None)
                (mkDynamicFilter "tf_module" "x") Hf Hv)
      as (_ & _ & _ & _ & _ & Habs).
    apply Habs; [reflexivity | discriminate | reflexivity].
Defined.

End FilterEngine.

(* ================================================================== *)
(** * Timeline layout: facts                                           *)
(* ================================================================== *)

Section Numbers.

Lemma min2_fin (a b : Z) : JS.min2 (fin a) (fin b) = fin (Z.min a b).
Proof.
  unfold fin, JS.min2.
  destruct (Qle_bool (inject_Z a) (inject_Z b)) eqn:E.
  - apply Qle_bool_iff in E. rewrite <- Zle_Qle in E.
    rewrite Z.min_l by exact E. reflexivity.
  - assert (H : ~ (a <= b)%Z).
    { rewrite Zle_Qle, <- Qle_bool_iff, E. discriminate. }
    rewrite Z.min_r by lia. reflexivity.
Qed.

Lemma max2_fin (a b : Z) : JS.max2 (fin a) (fin b) = fin (Z.max a b).
Proof.
  unfold fin, JS.max2.
  destruct (Qle_bool (inject_Z a) (inject_Z b)) eqn:E.
  - apply Qle_bool_iff in E. rewrite <- Zle_Qle in E.
    rewrite Z.max_r by exact E. reflexivity.
  - assert (H : ~ (a <= b)%Z).
    { rewrite Zle_Qle, <- Qle_bool_iff, E. discriminate. }
    rewrite Z.max_l by lia. reflexivity.
Qed.

(** [Math.min] of finite numbers is the least of them. *)
Lemma fold_min2_fin (l : list Z) (acc : Z) :
  exists m : Z,
    In m (acc :: l) /\ (forall z, In z (acc :: l) -> m <= z)
    /\ fold_left JS.min2 (map fin l) (fin acc) = fin m.
Proof.
  revert acc. induction l as [|x t IH]; intros acc; cbn [map fold_left].
  - exists acc. split; [left; reflexivity|]. split; [|reflexivity].
    intros z [<- | []]. lia.
  - rewrite min2_fin. destruct (IH (Z.min acc x)) as (m & Hin & Hle & Hm).
    exists m. split; [|split; [|exact Hm]].
    + destruct Hin as [<- | Hin]; [|right; right; exact Hin].
      destruct (Z.min_spec acc x) as [[_ ->] | [_ ->]];
        [left | right; left]; reflexivity.
    + assert (Hmin : m <= Z.min acc x) by (apply Hle; left; reflexivity).
      intros z [<- | [<- | Hz]]; [lia | lia | apply Hle; right; exact Hz].
Qed.

Lemma fold_max2_fin (l : list Z) (acc : Z) :
  exists m : Z,
    In m (acc :: l) /\ (forall z, In z (acc :: l) -> z <= m)
    /\ fold_left JS.max2 (map fin l) (fin acc) = fin m.
Proof.
  revert acc. induction l as [|x t IH]; intros acc; cbn [map fold_left].
  - exists acc. split; [left; reflexivity|]. split; [|reflexivity].
    intros z [<- | []]. lia.
  - rewrite max2_fin. destruct (IH (Z.max acc x)) as (m & Hin & Hle & Hm).
    exists m. split; [|split; [|exact Hm]].
    + destruct Hin as [<- | Hin]; [|right; right; exact Hin].
      destruct (Z.max_spec acc x) as [[_ ->] | [_ ->]];
        [right; left | left]; reflexivity.
    + assert (Hmax : Z.max acc x <= m) by (apply Hle; left; reflexivity).
      intros z [<- | [<- | Hz]]; [lia | lia | apply Hle; right; exact Hz].
Qed.

Lemma Math_min_fin (x : Z) (l : list Z) :
  exists m : Z,
    In m (x :: l) /\ (forall z, In z (x :: l) -> m <= z)
    /\ JS.Math_min (map fin (x :: l)) = fin m.
Proof. unfold JS.Math_min. cbn [map fold_left JS.min2 fin]. apply fold_min2_fin. Qed.

Lemma Math_max_fin (x : Z) (l : list Z) :
  exists m : Z,
    In m (x :: l) /\ (forall z, In z (x :: l) -> z <= m)
    /\ JS.Math_max (map fin (x :: l)) = fin m.
Proof. unfold JS.Math_max. cbn [map fold_left JS.max2 fin]. apply fold_max2_fin. Qed.

(** [NaN] is absorbing for [Math.min] and [Math.max]. *)
Lemma min2_NaN_r (a : JS.number) : JS.min2 a JS.NaN = JS.NaN.
Proof. destruct a as [|[]|]; reflexivity. Qed.

Lemma max2_NaN_r (a : JS.number) : JS.max2 a JS.NaN = JS.NaN.
Proof. destruct a as [|[]|]; reflexivity. Qed.

Lemma fold_min2_NaN (l : list JS.number) :
  fold_left JS.min2 l JS.NaN = JS.NaN.
Proof. induction l as [|x t IH]; cbn; [reflexivity | exact IH]. Qed.

Lemma fold_max2_NaN (l : list JS.number) :
  fold_left JS.max2 l JS.NaN = JS.NaN.
Proof. induction l as [|x t IH]; cbn; [reflexivity | exact IH]. Qed.

Lemma Math_min_NaN (l : list JS.number) :
  In JS.NaN l -> JS.Math_min l = JS.NaN.
Proof.
  unfold JS.Math_min. generalize (JS.Inf false).
  induction l as [|x t IH]; intros acc; cbn; [tauto|].
  intros [-> | H]; [rewrite min2_NaN_r; apply fold_min2_NaN | apply IH, H].
Qed.

Lemma Math_max_NaN (l : list JS.number) :
  In JS.NaN l -> JS.Math_max l = JS.NaN.
Proof.
  unfold JS.Math_max. generalize (JS.Inf true).
  induction l as [|x t IH]; intros acc; cbn; [tauto|].
  intros [-> | H]; [rewrite max2_NaN_r; apply fold_max2_NaN | apply IH, H].
Qed.

Lemma sub_NaN_r (a : JS.number) : JS.sub a JS.NaN = JS.NaN.
Proof. destruct a; reflexivity. Qed.

End Numbers.

Section TimelineLayout.

Import GanttChart.

Lemma timestamps_well_timed (S : list GanttItem) :
  (forall item, In item S -> well_timed item) ->
  flat_map (fun item => [getTime (start item); getTime (end_ item)]) S
  = map fin (instants S).
Proof.
  induction S as [|item t IH]; intros H; [reflexivity|].
  unfold instants in *. cbn [flat_map].
  destruct (H item (or_introl eq_refl)) as (s & e & -> & ->).
  rewrite map_app, <- IH by (intros i Hi; apply H; right; exact Hi).
  reflexivity.
Qed.

Lemma instants_In (S : list GanttItem) (item : GanttItem) (s e : Z) :
  In item S -> start item = Some s -> end_ item = Some e ->
  In s (instants S) /\ In e (instants S).
Proof.
  intros Hin Hs He. unfold instants.
  split; apply in_flat_map; exists item; (split; [exact Hin|]);
    rewrite Hs, He; [left | right; left]; reflexivity.
Qed.

(** The scale of a non-empty collection of well-timed segments. *)
Lemma scale_well_timed (now : Z) (S : list GanttItem) :
  S <> [] -> (forall item, In item S -> well_timed item) ->
  exists m M : Z,
    In m (instants S) /\ In M (instants S)
    /\ (forall t, In t (instants S) -> m <= t <= M)
    /\ getTimelineScale now S
       = {| min := fin m; max := fin M;
            range := if Qeq_bool (inject_Z M - inject_Z m) 0
                     then JS.Fin 1
                     else JS.Fin (inject_Z M - inject_Z m) |}.
Proof.
  intros Hne Hwt. unfold getTimelineScale.
  destruct S as [|item t]; [congruence|]. cbn [List.length Nat.eqb].
  rewrite (timestamps_well_timed _ Hwt).
  assert (Hx : exists x l, instants (item :: t) = x :: l).
  { destruct (Hwt item (or_introl eq_refl)) as (s & e & Hs & He).
    unfold instants. cbn [flat_map]. rewrite Hs, He. cbn. eauto. }
  destruct Hx as (x & l & ->).
  destruct (Math_min_fin x l) as (m & Hm & Hmle & ->).
  destruct (Math_max_fin x l) as (M & HM & HMle & ->).
  exists m, M. split; [exact Hm|]. split; [exact HM|].
  split; [intros z Hz; split; [apply Hmle | apply HMle]; exact Hz|].
  unfold JS.num_or, fin, JS.sub, JS.truthy, JS.is_zero.
  destruct (Qeq_bool (inject_Z M - inject_Z m) 0); reflexivity.
Qed.

(** C6, as stated, fails on the empty collection: its scale has range 0,
    not 1. *)
Lemma C6_empty_collection_range_zero :
  range (getTimelineScale 1700000000000 []) = JS.Fin 0
  /\ range (getTimelineScale 1700000000000 []) <> JS.Fin 1
  /\ JS.truthy (range (getTimelineScale 1700000000000 [])) = false.
Proof. split; [reflexivity | split; [discriminate | reflexivity]]. Qed.

(** C6, amended: for every non-empty collection of segments whose start and
    end parse, [min] is the smallest and [max] the largest start or end
    instant, and [range] is [max - min], or 1 when that is zero, so there
    the range is never 0; for the empty collection [min] and [max] are the
    current time and [range] is 0. *)
Theorem C6_timeline_scale_amended :
  forall (now : Z) (S : list GanttItem),
    (S = [] ->
     getTimelineScale now S
     = {| min := fin now; max := fin now; range := JS.Fin 0 |})
    /\ (S <> [] -> (forall item, In item S -> well_timed item) ->
        exists (m M : Z) (r : Q),
          In m (instants S) /\ In M (instants S)
          /\ (forall t, In t (instants S) -> m <= t <= M)
          /\ min (getTimelineScale now S) = fin m
          /\ max (getTimelineScale now S) = fin M
          /\ range (getTimelineScale now S) = JS.Fin r
          /\ (r == inject_Z (if M - m =? 0 then 1 else M - m))%Q
          /\ ~ (r == 0)%Q).
Proof.
  intros now S. split; [intros ->; reflexivity|].
  intros Hne Hwt.
  destruct (scale_well_timed now S Hne Hwt) as (m & M & Hm & HM & Hb & ->).
  cbn [min max range].
  assert (Hd : (inject_Z M - inject_Z m == inject_Z (M - m))%Q).
  { unfold Z.sub. rewrite inject_Z_plus, inject_Z_opp. reflexivity. }
  destruct (Qeq_bool (inject_Z M - inject_Z m) 0) eqn:E.
  - exists m, M, 1%Q. repeat (split; [assumption || reflexivity|]).
    apply Qeq_bool_iff in E. rewrite Hd in E.
    apply (inject_Z_injective (M - m) 0) in E. rewrite E.
    split; [reflexivity | discriminate].
  - exists m, M, (inject_Z M - inject_Z m)%Q.
    repeat (split; [assumption || reflexivity|]).
    apply Qeq_bool_neq in E.
    destruct (Z.eqb_spec (M - m) 0) as [H0 | _].
    + exfalso. apply E. rewrite Hd, H0. reflexivity.
    + split; [exact Hd | exact E].
Qed.

Lemma C6_timeline_scale_amended_witness :
  exists r : Q,
    range (getTimelineScale 0
             [sample_item (Some 100) (Some 250);
              sample_item (Some 40) (Some 120)]) = JS.Fin r
    /\ ~ (r == 0)%Q.
Proof.
  destruct (C6_timeline_scale_amended 0
              [sample_item (Some 100) (Some 250);
               sample_item (Some 40) (Some 120)]) as [_ H].
  destruct H as (m & M & r & _ & _ & _ & _ & _ & Hr & _ & Hnz).
  - discriminate.
  - intros item [<- | [<- | []]]; eexists _, _; split; reflexivity.
  - exists r. split; [exact Hr | exact Hnz].
Defined.

Lemma percent_bounds (x r : Q) :
  (0 < r -> 0 <= x -> x <= r -> 0 <= x / r * 100 /\ x / r * 100 <= 100)%Q.
Proof.
  intros Hr H0 H1.
  assert (Hlo : (0 <= x / r)%Q) by (apply Qle_shift_div_l; [exact Hr | lra]).
  assert (Hhi : (x / r <= 1)%Q) by (apply Qle_shift_div_r; [exact Hr | lra]).
  split; lra.
Qed.

Lemma in_layout (now : Z) (S : list GanttItem) (item : GanttItem)
  (style : BarStyle) :
  In (item, style) (layout now S) <->
  In item S /\ style = getBarStyle (getTimelineScale now S) item.
Proof.
  unfold layout. rewrite in_map_iff. split.
  - intros (i & Heq & Hin). injection Heq as -> <-. split; [exact Hin | reflexivity].
  - intros [Hin ->]. exists item. split; [reflexivity | exact Hin].
Qed.

(** C7, as stated, fails on a non-empty collection that holds a segment
    whose start does not parse: the bar of the good segment has [NaN] as
    its left position, which is not within [[0, 100]], and the bar of the
    bad segment has [NaN] as its width, which is not at least 0.5. *)
Lemma C7_unparseable_bar_counterexample :
  let good := sample_item (Some 100) (Some 200) in
  let bad := sample_item None (Some 300) in
  let S := [good; bad] in
  In (good, getBarStyle (getTimelineScale 0 S) good) (layout 0 S)
  /\ left (getBarStyle (getTimelineScale 0 S) good) = JS.NaN
  /\ In (bad, getBarStyle (getTimelineScale 0 S) bad) (layout 0 S)
  /\ width (getBarStyle (getTimelineScale 0 S) bad) = JS.NaN
  /\ ~ (forall item style,
          In (item, style) (layout 0 S) ->
          exists l w : Q,
            left style = JS.Fin l /\ (0 <= l)%Q /\ (l <= 100)%Q
            /\ width style = JS.Fin w /\ (1 # 2 <= w)%Q).
Proof.
  cbv zeta.
  split; [left; reflexivity|]. split; [reflexivity|].
  split; [right; left; reflexivity|]. split; [reflexivity|].
  intros H.
  destruct (H (sample_item (Some 100) (Some 200))
              (getBarStyle
                 (getTimelineScale 0 [sample_item (Some 100) (Some 200);
                                      sample_item None (Some 300)])
                 (sample_item (Some 100) (Some 200)))
              (or_introl eq_refl))
    as (l & w & Hl & _).
  vm_compute in Hl. discriminate Hl.
Qed.

(** C7, amended: for every non-empty collection of segments whose start and
    end values all parse, positioned against the scale of that same
    collection, every bar has [left = (start - min) / range * 100], which
    lies in [[0, 100]], and [width = max((end - start) / range * 100, 0.5)],
    which is at least 0.5. *)
Theorem C7_bar_geometry :
  forall (now : Z) (S : list GanttItem) (item : GanttItem)
         (style : BarStyle),
    S <> [] ->
    (forall i, In i S -> well_timed i) ->
    In (item, style) (layout now S) ->
    let timeline := getTimelineScale now S in
    exists (s e m : Z) (r : Q),
      start item = Some s /\ end_ item = Some e
      /\ min timeline = fin m /\ range timeline = JS.Fin r
      /\ left style = JS.Fin ((inject_Z s - inject_Z m) / r * 100)
      /\ (0 <= (inject_Z s - inject_Z m) / r * 100)%Q
      /\ ((inject_Z s - inject_Z m) / r * 100 <= 100)%Q
      /\ exists w : Q,
           width style = JS.Fin w
           /\ (w == Qmax ((inject_Z e - inject_Z s) / r * 100) (1 # 2))%Q
           /\ (1 # 2 <= w)%Q.
Proof.
  intros now S item style Hne Hwt Hbar timeline. subst timeline.
  apply in_layout in Hbar. destruct Hbar as [Hin ->].
  destruct (Hwt item Hin) as (s & e & Hs & He).
  destruct (instants_In S item s e Hin Hs He) as [Hsi Hei].
  destruct (scale_well_timed now S Hne Hwt) as (m & M & Hm & HM & Hb & ->).
  pose proof (Hb s Hsi) as [Hms HsM].
  rewrite Zle_Qle in Hms, HsM.
  set (r := if Qeq_bool (inject_Z M - inject_Z m) 0
            then 1%Q else (inject_Z M - inject_Z m)%Q).
  assert (Hrange :
            (if Qeq_bool (inject_Z M - inject_Z m) 0
             then JS.Fin 1 else JS.Fin (inject_Z M - inject_Z m))
            = JS.Fin r).
  { unfold r. destruct (Qeq_bool (inject_Z M - inject_Z m) 0); reflexivity. }
  rewrite Hrange.
  assert (Hr : (0 < r)%Q /\ (inject_Z s - inject_Z m <= r)%Q).
  { unfold r. destruct (Qeq_bool (inject_Z M - inject_Z m) 0) eqn:E.
    - apply Qeq_bool_iff in E. split; lra.
    - apply Qeq_bool_neq in E. split; [|lra].
      destruct (Qlt_le_dec 0 (inject_Z M - inject_Z m)) as [Hlt | Hle];
        [exact Hlt|].
      exfalso. apply E. lra. }
  destruct Hr as [Hrpos Hsr].
  assert (Hnz : JS.is_zero r = false).
  { unfold JS.is_zero. destruct (Qeq_bool r 0) eqn:E; [|reflexivity].
    apply Qeq_bool_iff in E. lra. }
  exists s, e, m, r.
  unfold getBarStyle. cbn [min range left width]. rewrite Hs, He.
  unfold getTime, fin, JS.sub, JS.div. rewrite Hnz. unfold JS.mul.
  split; [reflexivity|]. split; [reflexivity|].
  split; [reflexivity|]. split; [reflexivity|].
  split; [reflexivity|].
  destruct (percent_bounds (inject_Z s - inject_Z m) r Hrpos) as [Hlo Hhi];
    [lra | exact Hsr |].
  split; [exact Hlo|]. split; [exact Hhi|].
  unfold JS.max2.
  destruct (Qle_bool ((inject_Z e - inject_Z s) / r * 100) (1 # 2)) eqn:E.
  - apply Qle_bool_iff in E. exists (1 # 2)%Q.
    split; [reflexivity|]. split; [|apply Qle_refl].
    symmetry. apply Q.max_r, E.
  - exists ((inject_Z e - inject_Z s) / r * 100)%Q.
    assert (Hgt : (1 # 2 <= (inject_Z e - inject_Z s) / r * 100)%Q).
    { destruct (Qlt_le_dec ((inject_Z e - inject_Z s) / r * 100) (1 # 2))
        as [Hlt | Hle]; [|exact Hle].
      apply Qlt_le_weak, Qle_bool_iff in Hlt. congruence. }
    split; [reflexivity|]. split; [|exact Hgt].
    symmetry. apply Q.max_l, Hgt.
Qed.

Lemma C7_bar_geometry_witness :
  exists w : Q,
    width (getBarStyle
             (getTimelineScale 0 [sample_item (Some 100) (Some 250);
                                  sample_item (Some 40) (Some 40)])
             (sample_item (Some 40) (Some 40))) = JS.Fin w
    /\ (1 # 2 <= w)%Q.
Proof.
  destruct (C7_bar_geometry 0
              [sample_item (Some 100) (Some 250);
               sample_item (Some 40) (Some 40)]
              (sample_item (Some 40) (Some 40))
              (getBarStyle
                 (getTimelineScale 0 [sample_item (Some 100) (Some 250);
                                      sample_item (Some 40) (Some 40)])
                 (sample_item (Some 40) (Some 40))))
    as (s & e & m & r & _ & _ & _ & _ & _ & _ & _ & w & Hw & _ & Hge).
  - discriminate.
  - intros i [<- | [<- | []]]; eexists _, _; split; reflexivity.
  - right; left; reflexivity.
  - exists w. split; [exact Hw | exact Hge].
Defined.

(** The scale of a collection with a start or end that does not parse. *)
Lemma scale_unparseable (now : Z) (S : list GanttItem) (bad : GanttItem) :
  In bad S -> start bad = None \/ end_ bad = None ->
  getTimelineScale now S
  = {| min := JS.NaN; max := JS.NaN; range := JS.Fin 1 |}.
Proof.
  intros Hin Hbad. unfold getTimelineScale.
  destruct S as [|item t] eqn:ES; [destruct Hin|]. rewrite <- ES in *.
  assert (Hlen : Nat.eqb (List.length S) 0 = false) by (rewrite ES; reflexivity).
  rewrite Hlen.
  assert (Hnan : In JS.NaN
                   (flat_map
                      (fun item => [getTime (start item); getTime (end_ item)])
                      S)).
  { apply in_flat_map. exists bad. split; [exact Hin|].
    destruct Hbad as [-> | ->]; [left | right; left]; reflexivity. }
  rewrite (Math_min_NaN _ Hnan), (Math_max_NaN _ Hnan). reflexivity.
Qed.

(** C10, as stated, fails: one segment whose start does not parse is
    neither left out of the scale nor of the bars, and the bar of the good
    segment next to it loses its position.  Without the bad segment the
    scale would be 100..200 and the good bar would sit at 0. *)
Lemma C10_unparseable_segment_counterexample :
  let good := sample_item (Some 100) (Some 200) in
  let bad := sample_item None (Some 300) in
  getTimelineScale 0 [good; bad]
  = {| min := JS.NaN; max := JS.NaN; range := JS.Fin 1 |}
  /\ getTimelineScale 0 [good; bad] <> getTimelineScale 0 [good]
  /\ map fst (layout 0 [good; bad]) = [good; bad]
  /\ left (getBarStyle (getTimelineScale 0 [good; bad]) good) = JS.NaN
  /\ left (getBarStyle (getTimelineScale 0 [good]) good) = JS.Fin (0 # 100).
Proof.
  cbv zeta. repeat split; try reflexivity.
  intros H. vm_compute in H. discriminate H.
Qed.

(** C10, amended: a segment whose start or end does not parse is not left
    out and nothing is counted.  The scale of a collection that contains
    one has [NaN] as [min] and [max] and 1 as [range]; the chart still
    holds one bar per segment of the collection, in order; the left
    position of every bar, of the good segments too, is [NaN], and so is the
    width of a bar whose own start or end does not parse. *)
Theorem C10_unparseable_segment_amended :
  forall (now : Z) (S : list GanttItem) (bad : GanttItem),
    In bad S -> start bad = None \/ end_ bad = None ->
    getTimelineScale now S
    = {| min := JS.NaN; max := JS.NaN; range := JS.Fin 1 |}
    /\ map fst (layout now S) = S
    /\ List.length (layout now S) = List.length S
    /\ (forall item style, In (item, style) (layout now S) ->
          left style = JS.NaN)
    /\ (forall style, In (bad, style) (layout now S) ->
          width style = JS.NaN).
Proof.
  intros now S bad Hin Hbad.
  pose proof (scale_unparseable now S bad Hin Hbad) as Hscale.
  split; [exact Hscale|].
  split; [unfold layout; rewrite map_map; apply map_id|].
  split; [unfold layout; apply length_map|].
  split.
  - intros item style Hb. apply in_layout in Hb. destruct Hb as [_ ->].
    rewrite Hscale. unfold getBarStyle. cbn [min range left].
    rewrite sub_NaN_r. reflexivity.
  - intros style Hb. apply in_layout in Hb. destruct Hb as [_ ->].
    rewrite Hscale. unfold getBarStyle. cbn [min range width].
    destruct Hbad as [-> | ->]; cbn [getTime].
    + rewrite sub_NaN_r. reflexivity.
    + reflexivity.
Qed.

Lemma C10_unparseable_segment_amended_witness :
  getTimelineScale 0 [sample_item (Some 100) (Some 200);
                      sample_item (Some 150) None]
  = {| min := JS.NaN; max := JS.NaN; range := JS.Fin 1 |}
  /\ List.length (layout 0 [sample_item (Some 100) (Some 200);
                            sample_item (Some 150) None]) = 2%nat.
Proof.
  destruct (C10_unparseable_segment_amended 0
              [sample_item (Some 100) (Some 200); sample_item (Some 150) None]
              (sample_item (Some 150) None))
    as (Hscale & _ & Hlen & _).
  - right; left; reflexivity.
  - right; reflexivity.
  - split; [exact Hscale | exact Hlen].
Defined.

End TimelineLayout.

(* ================================================================== *)
(** * Quality scoring: further facts                                   *)
(* ================================================================== *)

Section QualityScoringMore.

Import CompetitionDashboard.

Local Notation "'errors_of' stats" :=
  (JS.int_or (level_count stats "error") 0) (at level 10, only parsing).
Local Notation "'warnings_of' stats" :=
  (JS.int_or (level_count stats "warn") 0) (at level 10, only parsing).

Lemma score_of_stats (stats : Statistics) :
  score (calculateQualityScore stats)
  = clamp (100 - errors_of stats * 10 - warnings_of stats * 2) 0 100.
Proof.
  unfold calculateQualityScore. cbn [score].
  rewrite Math_round_integer. apply clamp_max_min.
Qed.

Lemma grade_of_stats (stats : Statistics) :
  grade (calculateQualityScore stats)
  = grade_of (score (calculateQualityScore stats)).
Proof.
  rewrite score_of_stats. unfold calculateQualityScore. cbn [grade].
  rewrite clamp_max_min. reflexivity.
Qed.

Local Ltac split_ltb :=
  repeat match goal with
    | |- context [?a <? ?b] =>
        let E := fresh "E" in
        destruct (a <? b) eqn:E;
        [apply Z.ltb_lt in E | apply Z.ltb_ge in E]
    | |- context [?a <=? ?b] =>
        let E := fresh "E" in
        destruct (a <=? b) eqn:E;
        [apply Z.leb_le in E | apply Z.leb_gt in E]
    end.

Lemma totalEntries_positive (stats : Statistics) :
  (forall n, total_entries stats = Some n -> 0 <= n) ->
  0 < JS.int_or (total_entries stats) 1.
Proof.
  intros H. unfold JS.int_or. destruct (total_entries stats) as [n|]; [|lia].
  specialize (H n eq_refl).
  destruct (n =? 0) eqn:E; [lia | apply Z.eqb_neq in E; lia].
Qed.

(** X1: when the total of entries is not negative, there is at least one
    recommendation and there are at most two; the acknowledgment that the
    quality is excellent is given exactly when neither the error count nor
    the warning count is positive, and then it is the only one. *)
Theorem recommendations_one_or_two :
  forall stats : Statistics,
    (forall n, total_entries stats = Some n -> 0 <= n) ->
    let recs := recommendations (calculateQualityScore stats) in
    (1 <= List.length recs <= 2)%nat
    /\ (In excellent_msg recs <->
        errors_of stats <= 0 /\ warnings_of stats <= 0)
    /\ (In excellent_msg recs -> recs = [excellent_msg]).
Proof.
  intros stats Hpos. unfold calculateQualityScore. cbn [recommendations].
  pose proof (totalEntries_nonzero (total_entries stats)) as Hn.
  apply Z.eqb_neq in Hn. rewrite Hn.
  pose proof (totalEntries_positive stats Hpos) as Ht.
  apply Z.ltb_lt in Ht. rewrite Ht. clear Hn Ht.
  set (e := JS.int_or (level_count stats "error") 0).
  set (w := JS.int_or (level_count stats "warn") 0).
  unfold push.
  destruct (Z.ltb_spec 0 e) as [Ee | Ee];
    destruct (Z.ltb_spec 0 w) as [Ew | Ew]; cbn.
  - split; [lia|]. split; [split|].
    + intros [H | [H | []]]; discriminate H.
    + lia.
    + intros [H | [H | []]]; discriminate H.
  - split; [lia|]. split; [split|].
    + intros [H | []]; discriminate H.
    + lia.
    + intros [H | []]; discriminate H.
  - split; [lia|]. split; [split|].
    + intros [H | []]; discriminate H.
    + lia.
    + intros [H | []]; discriminate H.
  - split; [lia|]. split; [split|].
    + intros _. split; assumption.
    + intros _. left. reflexivity.
    + reflexivity.
Qed.

Lemma recommendations_one_or_two_witness :
  recommendations (calculateQualityScore (stats_of 10 0 0)) = [excellent_msg].
Proof.
  assert (Hpos : forall n, total_entries (stats_of 10 0 0) = Some n -> 0 <= n).
  { intros n H. injection H as <-. lia. }
  destruct (recommendations_one_or_two (stats_of 10 0 0) Hpos)
    as (_ & Hiff & Honly).
  apply Honly, Hiff. split; vm_compute; discriminate.
Defined.

(** X2: the score does not depend on the total of entries and never rises when
    a count rises. *)
Theorem score_antitone :
  forall t t' e e' w w' : Z,
    e <= e' -> w <= w' ->
    score (calculateQualityScore (stats_of t' e' w'))
    <= score (calculateQualityScore (stats_of t e w)).
Proof.
  intros t t' e e' w w' He Hw. rewrite !score_of_counts.
  apply clamp_antitone. lia.
Qed.

Lemma score_antitone_witness :
  score (calculateQualityScore (stats_of 7 3 4))
  <= score (calculateQualityScore (stats_of 10 2 1)).
Proof. apply score_antitone; lia. Defined.

(** X3: the grade read off the total penalty [p = 10 * errors + 2 * warnings]:
    A up to 10, B up to 20, C up to 30, D up to 40, F above; from a
    penalty of 100 on the score is 0. *)
Theorem grade_by_penalty :
  forall stats : Statistics,
    let p := errors_of stats * 10 + warnings_of stats * 2 in
    let q := calculateQualityScore stats in
    (grade q = "A" <-> p <= 10)
    /\ (grade q = "B" <-> 10 < p <= 20)
    /\ (grade q = "C" <-> 20 < p <= 30)
    /\ (grade q = "D" <-> 30 < p <= 40)
    /\ (grade q = "F" <-> 40 < p)
    /\ (score q = 0 <-> 100 <= p).
Proof.
  intros stats p q. subst q.
  rewrite grade_of_stats, score_of_stats.
  set (e := JS.int_or (level_count stats "error") 0) in *.
  set (w := JS.int_or (level_count stats "warn") 0) in *.
  replace (100 - e * 10 - w * 2) with (100 - p) by (subst p; lia).
  clearbody p.
  assert (Hc : (100 - p < 0 /\ clamp (100 - p) 0 100 = 0)
               \/ (100 < 100 - p /\ clamp (100 - p) 0 100 = 100)
               \/ (0 <= 100 - p <= 100 /\ clamp (100 - p) 0 100 = 100 - p)).
  { unfold clamp. split_ltb; lia. }
  set (sc := clamp (100 - p) 0 100) in *. clearbody sc.
  unfold grade_of.
  split_ltb; repeat split; intros;
    try discriminate; try reflexivity; lia.
Qed.

(** X4: for counts that are not negative, the figures of the breakdown add up
    to the score as long as the penalties do not exceed the base score; once
    they do, the score is 0 and above what the breakdown adds up to. *)
Theorem breakdown_adds_up :
  forall t e w : Z,
    0 <= e -> 0 <= w ->
    let q := calculateQualityScore (stats_of t e w) in
    let b := breakdown q in
    (error_penalty b + warning_penalty b <= base_score b ->
     score q = base_score b - error_penalty b - warning_penalty b)
    /\ (base_score b < error_penalty b + warning_penalty b ->
        score q = 0
        /\ base_score b - error_penalty b - warning_penalty b < score q).
Proof.
  intros t e w He Hw q b. subst b q. rewrite score_of_counts.
  unfold calculateQualityScore.
  destruct (level_count_stats_of t e w) as [-> ->].
  rewrite !int_or_zero_default.
  cbn [breakdown base_score error_penalty warning_penalty].
  unfold clamp. split_ltb; split; intros; lia.
Qed.

Lemma breakdown_adds_up_witness :
  score (calculateQualityScore (stats_of 10 2 1)) = 100 - 20 - 2
  /\ score (calculateQualityScore (stats_of 10 9 8)) = 0.
Proof.
  split.
  - assert (H0 : 0 <= 2) by lia. assert (H1 : 0 <= 1) by lia.
    destruct (breakdown_adds_up 10 2 1 H0 H1) as [H _].
    cbv zeta in H. rewrite H by (vm_compute; discriminate). reflexivity.
  - assert (H0 : 0 <= 9) by lia. assert (H1 : 0 <= 8) by lia.
    destruct (breakdown_adds_up 10 9 8 H0 H1) as [_ H].
    cbv zeta in H. apply H. vm_compute. reflexivity.
Defined.

(** X5: the dashboard shows two totals taken from the same statistic with two
    defaults: "logs processed" and the number of entries the grade is said
    to be based on.  They agree exactly when the total is there and not
    zero; without data the first is 0 and the second 1. *)
Theorem dashboard_totals :
  forall stats : Statistics,
    let d := demoData stats in
    let processed := total_logs_processed (system_overview d) in
    let analysed := breakdown_total_entries (breakdown (quality_score d)) in
    (processed = analysed <->
     exists n, total_entries stats = Some n /\ n <> 0)
    /\ (processed <> analysed -> processed = 0 /\ analysed = 1).
Proof.
  intros stats. cbv zeta. unfold demoData, calculateQualityScore.
  cbn [system_overview total_logs_processed quality_score breakdown
       breakdown_total_entries].
  unfold JS.int_or. destruct (total_entries stats) as [n|].
  - destruct (Z.eqb_spec n 0) as [-> | Hn].
    + split; [split|].
      * discriminate.
      * intros (n & H & Hn). injection H as <-. contradiction.
      * intros _. split; reflexivity.
    + split; [split|].
      * intros _. exists n. split; [reflexivity | exact Hn].
      * reflexivity.
      * intros H. contradiction.
  - split; [split|].
    + discriminate.
    + intros (n & H & _). discriminate H.
    + intros _. split; reflexivity.
Qed.

(** X6: the score figure is red exactly below 70 (grades D and F are not told
    apart), and the progress circle reports success exactly from 90. *)
Theorem score_colour_by_score :
  forall stats : Statistics,
    let q := calculateQualityScore stats in
    (scoreColor q = "#ff4d4f" <-> score q < 70)
    /\ (scoreColor q = "#3f8600" <-> 90 <= score q)
    /\ (progressStatus q = "success" <-> 90 <= score q).
Proof.
  intros stats q. subst q. unfold scoreColor, progressStatus.
  rewrite grade_of_stats.
  set (sc := score (calculateQualityScore stats)). clearbody sc.
  unfold grade_of.
  split_ltb; repeat split; intros;
    try discriminate; try reflexivity; lia.
Qed.

End QualityScoringMore.

(* ================================================================== *)
(** * Filtering: further facts                                         *)
(* ================================================================== *)

Section FilterEngineMore.

Import EnhancedLogViewerWithFilters.

Lemma filter_filter {B : Type} (f g : B -> bool) (l : list B) :
  filter f (filter g l) = filter (fun x => g x && f x) l.
Proof.
  induction l as [|x t IH]; cbn; [reflexivity|].
  destruct (g x); cbn; [destruct (f x)|]; rewrite IH; reflexivity.
Qed.

Lemma Subseq_refl {B : Type} (l : list B) : Subseq l l.
Proof. induction l; constructor; assumption. Qed.

Lemma Subseq_filter_weaken {B : Type} (f g : B -> bool) (l : list B) :
  (forall x, In x l -> f x = true -> g x = true) ->
  Subseq (filter f l) (filter g l).
Proof.
  induction l as [|x t IH]; cbn; intros H; [constructor|].
  assert (IH' : Subseq (filter f t) (filter g t)).
  { apply IH. intros y Hy. apply H. right. exact Hy. }
  destruct (f x) eqn:Ef.
  - rewrite (H x (or_introl eq_refl) Ef). apply Subseq_keep. exact IH'.
  - destruct (g x); [apply Subseq_skip|]; exact IH'.
Qed.

(** The chain of filters is one filter by the conjunction of the active
    clauses. *)
Lemma applyAllFilters_passes (filters : Filters) (dfs : list DynamicFilter)
  (E : list LogEntry) :
  applyAllFilters filters dfs E = filter (passes filters dfs) E.
Proof.
  rewrite applyAllFilters_dynamic. unfold applyAllFilters, passes.
  cbn [List.length Nat.ltb Nat.leb].
  destruct (active (f_operation filters)) as [op|];
    destruct (active (f_level filters)) as [lv|];
    destruct (f_search filters =? "")%string;
    destruct (f_showRead filters); cbn [negb];
    rewrite ?filter_filter;
    try (apply filter_ext; intros entry; btauto).
Qed.

(** X7: the filtered list is the entries that pass every active clause, in
    their order: nothing is added, reordered or repeated, and no passing
    entry is lost. *)
Theorem filtered_entries_characterised :
  forall (filters : Filters) (dfs : list DynamicFilter) (E : list LogEntry),
    Subseq (applyAllFilters filters dfs E) E
    /\ (forall entry,
          In entry (applyAllFilters filters dfs E) <->
          In entry E
          /\ (forall op, active (f_operation filters) = Some op ->
                         operation entry = op)
          /\ (forall lv, active (f_level filters) = Some lv ->
                         level entry = lv)
          /\ (f_search filters <> "" ->
              search_match (f_search filters) entry = true)
          /\ (f_showRead filters = false -> read entry = false)
          /\ (forall df, In df dfs -> dynamic_match entry df = true)).
Proof.
  intros filters dfs E. rewrite applyAllFilters_passes.
  split; [apply Subseq_filter|].
  intros entry. rewrite filter_In. unfold passes.
  rewrite !andb_true_iff, forallb_forall.
  destruct (active (f_operation filters)) as [op|];
    destruct (active (f_level filters)) as [lv|];
    destruct (String.eqb_spec (f_search filters) "") as [Hs | Hs];
    destruct (f_showRead filters);
    rewrite ?String.eqb_eq, ?negb_true_iff;
    (split;
     [ intros (Hin & (((H1 & H2) & H3) & H4) & H5);
       repeat split; try assumption; intros;
       try congruence;
       repeat match goal with
         | H : Some _ = Some _ |- _ => injection H as <-
         end; try assumption; try contradiction
     | intros (Hin & H1 & H2 & H3 & H4 & H5);
       repeat split; try assumption; try reflexivity;
       try (apply H1; reflexivity); try (apply H2; reflexivity);
       try (apply H3; assumption); try (apply H4; reflexivity) ]).
Qed.

(** X8: filtering an already filtered list by the same specification changes
    nothing. *)
Theorem applyAllFilters_idempotent :
  forall (filters : Filters) (dfs : list DynamicFilter) (E : list LogEntry),
    applyAllFilters filters dfs (applyAllFilters filters dfs E)
    = applyAllFilters filters dfs E.
Proof.
  intros filters dfs E. rewrite !applyAllFilters_passes, filter_filter.
  apply filter_ext. intros entry. apply andb_diag.
Qed.

(** X9: the result depends on the dynamic filters as a set: their order and
    repetitions do not matter. *)
Theorem dynamic_filters_order_irrelevant :
  forall (filters : Filters) (dfs dfs' : list DynamicFilter)
         (E : list LogEntry),
    (forall df, In df dfs <-> In df dfs') ->
    applyAllFilters filters dfs E = applyAllFilters filters dfs' E.
Proof.
  intros filters dfs dfs' E H.
  rewrite (applyAllFilters_dynamic filters dfs),
          (applyAllFilters_dynamic filters dfs').
  apply filter_ext. intros entry.
  destruct (forallb (dynamic_match entry) dfs) eqn:E1;
    destruct (forallb (dynamic_match entry) dfs') eqn:E2; try reflexivity.
  - rewrite forallb_forall in E1.
    assert (E3 : forallb (dynamic_match entry) dfs' = true).
    { apply forallb_forall. intros df Hdf. apply E1, H, Hdf. }
    congruence.
  - rewrite forallb_forall in E2.
    assert (E3 : forallb (dynamic_match entry) dfs = true).
    { apply forallb_forall. intros df Hdf. apply E2, H, Hdf. }
    congruence.
Qed.

Lemma dynamic_filters_order_irrelevant_witness :
  applyAllFilters no_filters
    [mkDynamicFilter "level" "inf"; mkDynamicFilter "tf_req_id" "x"]
    [sample_entry "1" (Some "X") None; sample_entry "2" None None]
  = applyAllFilters no_filters
      [mkDynamicFilter "tf_req_id" "x"; mkDynamicFilter "level" "inf";
       mkDynamicFilter "tf_req_id" "x"]
      [sample_entry "1" (Some "X") None; sample_entry "2" None None].
Proof.
  apply dynamic_filters_order_irrelevant.
  intros df. cbn. tauto.
Defined.

Lemma lower_ascii_idempotent (c : ascii) :
  JS.lower_ascii (JS.lower_ascii c) = JS.lower_ascii c.
Proof.
  destruct c as [[] [] [] [] [] [] [] []]; reflexivity.
Qed.

Lemma toLowerCase_idempotent (s : string) :
  JS.toLowerCase (JS.toLowerCase s) = JS.toLowerCase s.
Proof.
  induction s as [|c t IH]; cbn; [reflexivity|].
  rewrite lower_ascii_idempotent, IH. reflexivity.
Qed.

Lemma toLowerCase_empty (s : string) : JS.toLowerCase s = "" <-> s = "".
Proof. destruct s; cbn; split; intros H; congruence. Qed.

(** X10: matching ignores the case of what the user typed: the search text and
    the value of a dynamic filter can be replaced by their lower-case form
    without changing the result. *)
Theorem filters_ignore_case :
  forall (op lv : option string) (rt search : string) (showRead : bool)
         (dfs : list DynamicFilter) (E : list LogEntry),
    applyAllFilters (mkFilters op lv rt search showRead) dfs E
    = applyAllFilters
        (mkFilters op lv rt (JS.toLowerCase search) showRead)
        (map (fun df => mkDynamicFilter (field df)
                                        (JS.toLowerCase (value df))) dfs)
        E.
Proof.
  intros op lv rt search showRead dfs E.
  rewrite !applyAllFilters_passes. apply filter_ext. intros entry.
  unfold passes. cbn [f_operation f_level f_search f_showRead].
  f_equal; [f_equal|].
  - destruct (String.eqb_spec search "") as [-> | Hne]; [reflexivity|].
    destruct (String.eqb_spec (JS.toLowerCase search) "") as [He | _].
    + apply (proj1 (toLowerCase_empty _)) in He. contradiction.
    + unfold search_match. rewrite toLowerCase_idempotent. reflexivity.
  - induction dfs as [|df t IH]; [reflexivity|].
    cbn [map forallb]. rewrite IH. f_equal.
    unfold dynamic_match, fieldValue. cbn [field value].
    rewrite toLowerCase_idempotent.
    destruct (String.eqb_spec (value df) "") as [-> | Hne]; [reflexivity|].
    destruct (String.eqb_spec (JS.toLowerCase (value df)) "") as [He | _];
      [|reflexivity].
    apply (proj1 (toLowerCase_empty _)) in He. contradiction.
Qed.

(** X11: adding a blank filter row does not change the filtered list. *)
Theorem blank_filter_row_changes_nothing :
  forall (filters : Filters) (dfs : list DynamicFilter) (E : list LogEntry),
    applyAllFilters filters (addDynamicFilter dfs) E
    = applyAllFilters filters dfs E.
Proof.
  intros filters dfs E.
  rewrite (applyAllFilters_dynamic filters (addDynamicFilter dfs)),
          (applyAllFilters_dynamic filters dfs).
  apply filter_ext. intros entry. unfold addDynamicFilter.
  rewrite forallb_app. cbn. apply andb_true_r.
Qed.

Lemma removeDynamicFilter_incl (index : nat) (dfs : list DynamicFilter)
  (df : DynamicFilter) :
  In df (removeDynamicFilter index dfs) -> In df dfs.
Proof.
  unfold removeDynamicFilter. rewrite in_app_iff.
  intros [H | H].
  - rewrite <- (firstn_skipn index dfs). apply in_or_app. left. exact H.
  - rewrite <- (firstn_skipn (S index) dfs). apply in_or_app. right. exact H.
Qed.

(** X12: removing a filter row takes out the filter at that position and keeps
    the others in order: the row added last is removed again by its
    position, a position past the end removes nothing, and no entry that
    was shown disappears. *)
Theorem removeDynamicFilter_spec :
  forall (index : nat) (dfs : list DynamicFilter),
    ((index < List.length dfs)%nat ->
     S (List.length (removeDynamicFilter index dfs)) = List.length dfs
     /\ forall i, nth_error (removeDynamicFilter index dfs) i
                  = if (i <? index)%nat then nth_error dfs i
                    else nth_error dfs (S i))
    /\ ((List.length dfs <= index)%nat ->
        removeDynamicFilter index dfs = dfs)
    /\ removeDynamicFilter (List.length dfs) (addDynamicFilter dfs) = dfs
    /\ forall filters E,
         Subseq (applyAllFilters filters dfs E)
                (applyAllFilters filters (removeDynamicFilter index dfs) E).
Proof.
  intros index dfs. unfold removeDynamicFilter.
  split; [|split; [|split]].
  - intros Hlt. split.
    + rewrite length_app, length_firstn, length_skipn. lia.
    + intros i. destruct (Nat.ltb_spec i index) as [Hi | Hi].
      * rewrite nth_error_app1 by (rewrite length_firstn; lia).
        rewrite nth_error_firstn.
        destruct (Nat.ltb_spec i index); [reflexivity | lia].
      * rewrite nth_error_app2 by (rewrite length_firstn; lia).
        rewrite length_firstn, Nat.min_l by lia.
        rewrite nth_error_skipn. f_equal. lia.
  - intros Hge. rewrite firstn_all2 by exact Hge.
    rewrite skipn_all2 by lia. apply app_nil_r.
  - unfold addDynamicFilter. rewrite firstn_app, Nat.sub_diag, firstn_all.
    cbn [firstn]. rewrite app_nil_r, skipn_all2 by (rewrite length_app; cbn; lia).
    apply app_nil_r.
  - intros filters E.
    rewrite (applyAllFilters_dynamic filters dfs),
            (applyAllFilters_dynamic filters
               (firstn index dfs ++ skipn (S index) dfs)).
    apply Subseq_filter_weaken. intros entry _.
    rewrite !forallb_forall. intros H df Hdf.
    apply H, (removeDynamicFilter_incl index), Hdf.
Qed.

Lemma removeDynamicFilter_spec_witness :
  removeDynamicFilter 5 [mkDynamicFilter "level" "inf"]
  = [mkDynamicFilter "level" "inf"]
  /\ S (List.length
          (removeDynamicFilter 0 [mkDynamicFilter "level" "inf";
                                  mkDynamicFilter "id" "1"])) = 2%nat.
Proof.
  split.
  - destruct (removeDynamicFilter_spec 5 [mkDynamicFilter "level" "inf"])
      as (_ & H & _).
    apply H. cbn. lia.
  - destruct (removeDynamicFilter_spec 0 [mkDynamicFilter "level" "inf";
                                          mkDynamicFilter "id" "1"])
      as (H & _).
    apply H. cbn. lia.
Defined.

(** X13: updating a filter row changes the named property of the filter at that
    position and nothing else; at a position past the end it throws. *)
Theorem updateDynamicFilter_spec :
  forall (index : nat) (name v : string) (dfs : list DynamicFilter),
    ((List.length dfs <= index)%nat ->
     updateDynamicFilter index name v dfs
     = JS.TypeError "Cannot set properties of undefined")
    /\ (forall df, nth_error dfs index = Some df ->
          exists dfs',
            updateDynamicFilter index name v dfs = JS.Normal dfs'
            /\ List.length dfs' = List.length dfs
            /\ nth_error dfs' index = Some (set_property df name v)
            /\ forall i, i <> index -> nth_error dfs' i = nth_error dfs i).
Proof.
  intros index name v dfs. unfold updateDynamicFilter.
  revert index. induction dfs as [|d t IH]; intros index; split.
  - intros _. destruct index; reflexivity.
  - intros df H. destruct index; discriminate H.
  - intros Hge. destruct index as [|i]; [cbn in Hge; lia|].
    cbn [update_at]. destruct (IH i) as [H _].
    rewrite H by (cbn in Hge; lia). reflexivity.
  - intros df H. destruct index as [|i].
    + injection H as <-. exists (set_property d name v :: t).
      split; [reflexivity|]. split; [reflexivity|].
      split; [reflexivity|].
      intros j Hj. destruct j; [contradiction | reflexivity].
    + cbn in H. destruct (IH i) as [_ IH2].
      destruct (IH2 df H) as (t' & Hu & Hlen & Hnth & Hother).
      exists (d :: t'). cbn [update_at]. rewrite Hu.
      split; [reflexivity|]. split; [cbn; rewrite Hlen; reflexivity|].
      split; [exact Hnth|].
      intros j Hj. destruct j; [reflexivity|].
      cbn. apply Hother. intros ->. contradiction.
Qed.

Lemma updateDynamicFilter_spec_witness :
  updateDynamicFilter 1 "value" "abc" [mkDynamicFilter "level" "inf"]
  = JS.TypeError "Cannot set properties of undefined"
  /\ exists dfs',
       updateDynamicFilter 0 "value" "abc" [mkDynamicFilter "level" "inf"]
       = JS.Normal dfs'
       /\ nth_error dfs' 0 = Some (mkDynamicFilter "level" "abc").
Proof.
  split.
  - destruct (updateDynamicFilter_spec 1 "value" "abc"
                [mkDynamicFilter "level" "inf"]) as [H _].
    apply H. cbn. lia.
  - destruct (updateDynamicFilter_spec 0 "value" "abc"
                [mkDynamicFilter "level" "inf"]) as [_ H].
    destruct (H (mkDynamicFilter "level" "inf") eq_refl)
      as (dfs' & Hu & _ & Hnth & _).
    exists dfs'. split; [exact Hu | exact Hnth].
Defined.

End FilterEngineMore.

(* ================================================================== *)
(** * The viewer: state after filtering, expansion sets, colours        *)
(* ================================================================== *)

Section ViewerState.

Import EnhancedLogViewerWithFilters.

(** X14: after [applyAllFilters], when no entry has a group key inherited from
    [Object.prototype], the three pieces of state agree: the count is the
    number of filtered entries, the groups hold exactly the filtered
    entries, and every group shown is a non-empty run of entries of the
    original list, in their order, that pass the filters and share the
    group's key. *)
Theorem state_after_filtering :
  forall (filters : Filters) (dfs : list DynamicFilter)
         (allEntries : list LogEntry),
    (forall e, In e allEntries -> JS.inherited (groupId e) = false) ->
    let st := applyAllFilters_state filters dfs allEntries in
    exists o,
      st_groupedEntries st = JS.Normal o
      /\ st_totalCount st = List.length (st_entries st)
      /\ Permutation (flat_map snd (JS.Object_entries o)) (st_entries st)
      /\ List.length (flat_map snd (JS.Object_entries o)) = st_totalCount st
      /\ forall k es,
           In (k, es) (JS.Object_entries o) ->
           es <> [] /\ Subseq es allEntries
           /\ forall e, In e es ->
                        passes filters dfs e = true /\ groupId e = k.
Proof.
  intros filters dfs allEntries Hk st. subst st.
  unfold applyAllFilters_state.
  cbn [st_entries st_totalCount st_groupedEntries].
  rewrite applyAllFilters_passes.
  set (F := filter (passes filters dfs) allEntries).
  assert (HkF : forall e, In e F -> JS.inherited (groupId e) = false).
  { intros e He. apply Hk. apply filter_In in He. apply He. }
  exists (groups_of groupId F).
  pose proof (Object_entries_perm (groups_of groupId F)) as Hperm.
  assert (Hflat : Permutation
                    (flat_map snd (JS.Object_entries (groups_of groupId F)))
                    F).
  { eapply perm_trans; [|apply groups_of_partition].
    apply Permutation_flat_map, Hperm. }
  split; [apply (reduce_closed_form groupId F HkF)|].
  split; [reflexivity|]. split; [exact Hflat|].
  split; [apply Permutation_length, Hflat|].
  intros k es Hin. apply (Permutation_in _ Hperm) in Hin.
  apply in_groups_of in Hin. destruct Hin as (-> & e0 & He0 & Hke0).
  split; [|split].
  - intros Hnil. pose proof (with_key_In groupId F e0 He0) as Hi.
    rewrite Hke0, Hnil in Hi. destruct Hi.
  - unfold with_key, F. rewrite filter_filter. apply Subseq_filter.
  - intros e He. unfold with_key, F in He. rewrite filter_filter in He.
    apply filter_In in He. destruct He as [_ He].
    apply andb_true_iff in He. destruct He as [H1 H2].
    split; [exact H1 | apply String.eqb_eq, H2].
Qed.

Lemma state_after_filtering_witness :
  st_totalCount
    (applyAllFilters_state no_filters [mkDynamicFilter "level" "inf"]
       [sample_entry "1" (Some "X") None; sample_entry "2" None None])
  = 2%nat.
Proof.
  destruct (state_after_filtering no_filters [mkDynamicFilter "level" "inf"]
              [sample_entry "1" (Some "X") None; sample_entry "2" None None])
    as (o & _ & Hc & _).
  - intros e [<- | [<- | []]]; reflexivity.
  - rewrite Hc. reflexivity.
Defined.

Lemma set_has_In (s : list string) (x : string) :
  JS.set_has s x = true <-> In x s.
Proof.
  unfold JS.set_has. rewrite existsb_exists. split.
  - intros (y & Hy & E). apply String.eqb_eq in E. subst y. exact Hy.
  - intros H. exists x. split; [exact H | apply String.eqb_refl].
Qed.

Lemma set_has_delete (s : list string) (x y : string) :
  JS.set_has (JS.set_delete s x) y
  = JS.set_has s y && negb (y =? x)%string.
Proof.
  unfold JS.set_has, JS.set_delete.
  induction s as [|z t IH]; cbn; [reflexivity|].
  destruct (String.eqb_spec z x) as [Hzx | Hzx]; cbn; rewrite IH;
    destruct (String.eqb_spec y x) as [Hyx | Hyx];
    destruct (String.eqb_spec y z) as [Hyz | Hyz];
    try congruence; cbn;
    rewrite ?andb_true_r, ?andb_false_r; reflexivity.
Qed.

Lemma set_has_add (s : list string) (x y : string) :
  JS.set_has (JS.set_add s x) y = JS.set_has s y || (y =? x)%string.
Proof.
  unfold JS.set_add. destruct (JS.set_has s x) eqn:E.
  - destruct (String.eqb_spec y x) as [Hyx | _];
      [rewrite Hyx, E; reflexivity | rewrite orb_false_r; reflexivity].
  - unfold JS.set_has. rewrite existsb_app. cbn.
    rewrite orb_false_r. reflexivity.
Qed.

(** X15: toggling an identifier in a set of expanded items flips its membership
    and leaves every other identifier alone; the set stays duplicate-free;
    toggling twice gives back the same members, and the very same set when
    the identifier was not in it. *)
Theorem toggle_spec :
  forall (prev : list string) (x : string),
    NoDup prev ->
    NoDup (toggle prev x)
    /\ JS.set_has (toggle prev x) x = negb (JS.set_has prev x)
    /\ (forall y, y <> x ->
                  JS.set_has (toggle prev x) y = JS.set_has prev y)
    /\ (forall y, JS.set_has (toggle (toggle prev x) x) y
                  = JS.set_has prev y)
    /\ (JS.set_has prev x = false -> toggle (toggle prev x) x = prev).
Proof.
  intros prev x Hnd.
  assert (Hflip : forall s, JS.set_has (toggle s x) x
                            = negb (JS.set_has s x)).
  { intros s. unfold toggle. destruct (JS.set_has s x) eqn:E.
    - rewrite set_has_delete, String.eqb_refl. apply andb_false_r.
    - rewrite set_has_add, String.eqb_refl. apply orb_true_r. }
  assert (Hother : forall s y, y <> x ->
                     JS.set_has (toggle s x) y = JS.set_has s y).
  { intros s y Hy. unfold toggle.
    destruct (JS.set_has s x).
    - rewrite set_has_delete.
      destruct (String.eqb_spec y x); [contradiction | apply andb_true_r].
    - rewrite set_has_add.
      destruct (String.eqb_spec y x); [contradiction | apply orb_false_r]. }
  split; [|split; [apply Hflip | split; [apply Hother | split]]].
  - unfold toggle. destruct (JS.set_has prev x) eqn:E.
    + apply NoDup_filter, Hnd.
    + unfold JS.set_add. rewrite E.
      apply NoDup_app; [exact Hnd | constructor; [intros [] | constructor]|].
      intros y Hy [<- | []].
      apply set_has_In in Hy. congruence.
  - intros y. destruct (String.eqb_spec y x) as [Hyx | Hy].
    + rewrite Hyx, Hflip, Hflip. apply negb_involutive.
    + rewrite Hother, Hother by exact Hy. reflexivity.
  - intros E. unfold toggle at 2. rewrite E. unfold toggle.
    rewrite set_has_add, String.eqb_refl, orb_true_r.
    unfold JS.set_add. rewrite E. unfold JS.set_delete.
    rewrite filter_app. cbn. rewrite String.eqb_refl. cbn.
    rewrite app_nil_r. apply filter_all. intros y Hy.
    destruct (String.eqb_spec y x) as [Hyx | _]; [|reflexivity].
    rewrite Hyx in Hy. apply set_has_In in Hy. congruence.
Qed.

Lemma toggle_spec_witness :
  toggle (toggle ["a"; "b"] "c") "c" = ["a"; "b"]
  /\ JS.set_has (toggle ["a"; "b"] "a") "a" = false.
Proof.
  assert (Hnd : NoDup ["a"; "b"]).
  { constructor; [intros [H | []]; discriminate H|].
    constructor; [intros []|constructor]. }
  destruct (toggle_spec ["a"; "b"] "c" Hnd) as (_ & _ & _ & _ & H).
  destruct (toggle_spec ["a"; "b"] "a" Hnd) as (_ & H' & _).
  split; [apply H; reflexivity | rewrite H'; reflexivity].
Defined.

Lemma own_absent {B : Type} (o : JS.object B) (name : string) :
  ~ In name (map fst o) -> JS.own o name = None.
Proof.
  induction o as [|[k v] t IH]; cbn; intros H; [reflexivity|].
  destruct (String.eqb_spec k name) as [Hk | _].
  - exfalso. apply H. left. exact Hk.
  - apply IH. intros Hin. apply H. right. exact Hin.
Qed.

Lemma inherited_cases (name : string) :
  JS.inherited name = true -> In name JS.Object_prototype_names.
Proof.
  unfold JS.inherited. rewrite existsb_exists.
  intros (n & Hn & E). apply String.eqb_eq in E. subst n. exact Hn.
Qed.

(** X16: the three colour tables are plain object literals.  A name that is not
    in the table and that plain objects do not inherit gets the default
    colour; a name that plain objects inherit ([constructor], [toString],
    ...) gets no colour string at all but the inherited value. *)
Theorem colour_lookups :
  forall name : string,
    (~ In name ["error"; "warn"; "info"; "debug"; "trace"] ->
     JS.inherited name = false ->
     getLevelColor name = JS.JStr "black")
    /\ (~ In name ["plan"; "apply"; "validate"; "unknown"] ->
        JS.inherited name = false ->
        getOperationColor name = JS.JStr "gray"
        /\ GanttChart.getOperationColor name = JS.JStr "#333333")
    /\ (JS.inherited name = true ->
        forall c, getLevelColor name <> JS.JStr c
                  /\ getOperationColor name <> JS.JStr c
                  /\ GanttChart.getOperationColor name <> JS.JStr c).
Proof.
  intros name. split; [|split].
  - intros Hout Hinh. unfold getLevelColor, JS.get.
    rewrite own_absent by exact Hout.
    rewrite (proto_get_not_inherited _ Hinh). reflexivity.
  - intros Hout Hinh.
    unfold getOperationColor, GanttChart.getOperationColor, JS.get.
    rewrite !own_absent by exact Hout.
    rewrite (proto_get_not_inherited _ Hinh). split; reflexivity.
  - intros Hinh c. apply inherited_cases in Hinh. cbn in Hinh.
    repeat (destruct Hinh as [<- | Hinh];
            [repeat split; intros H; vm_compute in H; discriminate H|]).
    destruct Hinh.
Qed.

Lemma colour_lookups_witness :
  getLevelColor "fatal" = JS.JStr "black"
  /\ getLevelColor "constructor" <> JS.JStr "black".
Proof.
  destruct (colour_lookups "fatal") as (H & _).
  destruct (colour_lookups "constructor") as (_ & _ & H').
  split.
  - apply H; [|reflexivity].
    cbn. intros Hin.
    repeat (destruct Hin as [Hin | Hin]; [discriminate Hin|]). exact Hin.
  - apply (H' eq_refl "black").
Defined.

(** X17: in the groups of the viewer with filters, an entry of a group either
    carries the group key as its request id, or has no request id and
    carries the key as its transport id, or has neither and the key is
    ["ungrouped"]: request ids and transport ids share one key space, and
    so does the sentinel. *)
Theorem group_members :
  forall E : list LogEntry,
    (forall e, In e E -> JS.inherited (groupId e) = false) ->
    exists o,
      groupEntries E = JS.Normal o
      /\ forall k es e,
           In (k, es) (JS.Object_entries o) -> In e es ->
           In e E
           /\ (tf_req_id e = Some k
               \/ (missing (tf_req_id e) /\ tf_http_trans_id e = Some k)
               \/ (missing (tf_req_id e) /\ missing (tf_http_trans_id e)
                   /\ k = "ungrouped")).
Proof.
  intros E Hk. exists (groups_of groupId E).
  split; [apply (reduce_closed_form groupId E Hk)|].
  intros k es e Hin He.
  apply (Permutation_in _ (Object_entries_perm _)) in Hin.
  apply in_groups_of in Hin. destruct Hin as (-> & _).
  unfold with_key in He. apply filter_In in He. destruct He as [HeE Hkey].
  apply String.eqb_eq in Hkey. split; [exact HeE|].
  assert (Hm : forall o : option string,
             (exists s, o = Some s /\ s <> "" /\ forall b, str_or o b = s)
             \/ (missing o /\ forall b, str_or o b = b)).
  { intros [s|].
    - destruct (String.eqb_spec s "") as [Hs | Hs].
      + right. split; [right; congruence|].
        intros b. cbn. rewrite Hs. reflexivity.
      + left. exists s. split; [reflexivity|]. split; [exact Hs|].
        intros b. cbn. destruct (String.eqb_spec s ""); [contradiction|].
        reflexivity.
    - right. split; [left; reflexivity | reflexivity]. }
  unfold groupId in Hkey.
  destruct (Hm (tf_req_id e)) as [(r & Hr & _ & Hor) | [Hmiss Hor]];
    rewrite Hor in Hkey.
  - left. congruence.
  - destruct (Hm (tf_http_trans_id e)) as [(t & Ht & _ & Hot) | [Hmiss' Hot]];
      rewrite Hot in Hkey.
    + right; left. split; [exact Hmiss | congruence].
    + right; right. auto.
Qed.

Lemma group_members_witness :
  exists o,
    groupEntries [sample_entry "1" (Some "K") None;
                  sample_entry "2" None (Some "K")] = JS.Normal o
    /\ List.length (JS.Object_entries o) = 1%nat.
Proof.
  destruct (group_members [sample_entry "1" (Some "K") None;
                           sample_entry "2" None (Some "K")])
    as (o & Ho & _).
  - intros e [<- | [<- | []]]; reflexivity.
  - exists o. split; [exact Ho|].
    vm_compute in Ho. injection Ho as <-. reflexivity.
Defined.

End ViewerState.

(* ================================================================== *)
(** * components/EnhancedLogViewer.jsx: facts                          *)
(* ================================================================== *)

Section RegroupingAfterUpdate.

Variable key : LogEntry -> string.
Variable f : LogEntry -> LogEntry.
Hypothesis key_kept : forall e, key (f e) = key e.

Local Notation "'mapacc' acc" :=
  (map (fun g : string * list LogEntry => (fst g, map f (snd g))) acc)
  (at level 10, only parsing).

Lemma own_mapacc (acc : JS.object (list LogEntry)) (k : string) :
  JS.own (mapacc acc) k = option_map (map f) (JS.own acc k).
Proof.
  induction acc as [|[a v] t IH]; cbn; [reflexivity|].
  destruct (a =? k)%string; [reflexivity | exact IH].
Qed.

Lemma acc_set_mapacc (acc : JS.object (list LogEntry)) (k : string)
  (v : list LogEntry) :
  acc_set (mapacc acc) k (map f v) = mapacc (acc_set acc k v).
Proof.
  induction acc as [|[a x] t IH]; cbn; [reflexivity|].
  destruct (a =? k)%string; cbn; [reflexivity | rewrite IH; reflexivity].
Qed.

Lemma own_acc_set_same (acc : JS.object (list LogEntry)) (k : string)
  (v : list LogEntry) :
  JS.own (acc_set acc k v) k = Some v.
Proof.
  induction acc as [|[a x] t IH]; cbn.
  - rewrite String.eqb_refl. reflexivity.
  - destruct (a =? k)%string eqn:E; cbn; rewrite E; [reflexivity | exact IH].
Qed.

Lemma group_step_mapacc (k : string) (acc : JS.object (list LogEntry))
  (e : LogEntry) :
  group_step k (mapacc acc) (f e)
  = JS.bind (group_step k acc e) (fun o => JS.Normal (mapacc o)).
Proof.
  unfold group_step, acc_get. rewrite own_mapacc.
  destruct (JS.own acc k) as [arr|] eqn:E; cbn [option_map slot_truthy negb].
  - rewrite own_mapacc, E. cbn [option_map JS.bind].
    rewrite <- acc_set_mapacc, map_app. reflexivity.
  - destruct (JS.ToBoolean (JS.proto_get k)); cbn [negb].
    + rewrite own_mapacc, E. reflexivity.
    + change (@nil LogEntry) with (map f (@nil LogEntry)) at 1 2.
      rewrite acc_set_mapacc, own_mapacc, own_acc_set_same.
      cbn [option_map JS.bind].
      change [f e] with (map f [e]). rewrite <- map_app, acc_set_mapacc.
      reflexivity.
Qed.

Lemma reduce_mapacc (E : list LogEntry) (acc : JS.object (list LogEntry)) :
  reduce (fun a e => group_step (key e) a e) (map f E) (mapacc acc)
  = JS.bind (reduce (fun a e => group_step (key e) a e) E acc)
            (fun o => JS.Normal (mapacc o)).
Proof.
  revert acc. induction E as [|e t IH]; intros acc; cbn [map reduce];
    [reflexivity|].
  rewrite key_kept, group_step_mapacc.
  destruct (group_step (key e) acc e) as [acc'|m]; cbn [JS.bind];
    [apply IH | reflexivity].
Qed.

End RegroupingAfterUpdate.

Section LegacyViewer.

Local Notation "'mark' entryId" :=
  (fun entry : LogEntry =>
     if (id entry =? entryId)%string then EnhancedLogViewer.set_read entry
     else entry) (at level 10, only parsing).

(** X18: marking an identifier as read keeps the entries, their identifiers and
    their order, sets the flag on every entry of that identifier and
    leaves the others as they were; marking twice is marking once; and
    grouping the updated entries gives the groups of before, with the same
    keys in the same order, holding the updated entries. *)
Theorem markAsRead_spec :
  forall (entryId : string) (prev : list LogEntry),
    let next := EnhancedLogViewer.markAsRead entryId prev in
    List.length next = List.length prev
    /\ map id next = map id prev
    /\ (forall e, In e next -> id e = entryId -> read e = true)
    /\ (forall e, In e prev -> id e <> entryId -> In e next)
    /\ EnhancedLogViewer.markAsRead entryId next = next
    /\ EnhancedLogViewer.groupEntries next
       = JS.bind (EnhancedLogViewer.groupEntries prev)
           (fun o =>
              JS.Normal
                (map (fun g => (fst g,
                                EnhancedLogViewer.markAsRead entryId (snd g)))
                     o)).
Proof.
  intros entryId prev next. subst next. unfold EnhancedLogViewer.markAsRead.
  split; [apply length_map|].
  split.
  { rewrite map_map. apply map_ext. intros e.
    destruct (id e =? entryId)%string; reflexivity. }
  split.
  { intros e He Hid. apply in_map_iff in He. destruct He as (e0 & <- & _).
    destruct (String.eqb_spec (id e0) entryId) as [_ | Hne]; [reflexivity|].
    contradiction. }
  split.
  { intros e He Hne. apply in_map_iff. exists e. split; [|exact He].
    destruct (String.eqb_spec (id e) entryId); [contradiction | reflexivity]. }
  split.
  { rewrite map_map. apply map_ext. intros e.
    destruct (String.eqb_spec (id e) entryId) as [He | He]; cbn.
    - rewrite He, String.eqb_refl. reflexivity.
    - destruct (String.eqb_spec (id e) entryId); [contradiction|reflexivity]. }
  unfold EnhancedLogViewer.groupEntries.
  assert (Hkey : forall e,
             EnhancedLogViewer.groupId ((mark entryId) e)
             = EnhancedLogViewer.groupId e).
  { intros e. cbv beta. destruct (id e =? entryId)%string; reflexivity. }
  apply (reduce_mapacc EnhancedLogViewer.groupId (mark entryId) Hkey prev []).
Qed.

(** X19: the viewer without filters groups by request id alone: an entry without
    one is in the group ["ungrouped"] whatever its transport id, and a
    group other than ["ungrouped"] holds only entries whose request id is
    its key. *)
Theorem legacy_grouping :
  forall E : list LogEntry,
    (forall e, In e E ->
               JS.inherited (EnhancedLogViewer.groupId e) = false) ->
    exists o,
      EnhancedLogViewer.groupEntries E = JS.Normal o
      /\ Permutation (flat_map snd (JS.Object_entries o)) E
      /\ (forall e, In e E -> missing (tf_req_id e) ->
            exists es, In ("ungrouped", es) (JS.Object_entries o)
                       /\ In e es)
      /\ (forall k es e,
            In (k, es) (JS.Object_entries o) -> In e es ->
            k <> "ungrouped" -> tf_req_id e = Some k).
Proof.
  intros E Hk. exists (groups_of EnhancedLogViewer.groupId E).
  pose proof (Object_entries_perm
                (groups_of EnhancedLogViewer.groupId E)) as Hperm.
  split; [apply (reduce_closed_form EnhancedLogViewer.groupId E Hk)|].
  split.
  { eapply perm_trans; [|apply groups_of_partition].
    apply Permutation_flat_map, Hperm. }
  split.
  - intros e He Hm.
    assert (Hg : EnhancedLogViewer.groupId e = "ungrouped").
    { unfold EnhancedLogViewer.groupId. destruct Hm as [-> | ->]; reflexivity. }
    exists (with_key EnhancedLogViewer.groupId "ungrouped" E). split.
    + apply (Permutation_in _ (Permutation_sym Hperm)).
      unfold groups_of.
      apply (in_map (fun k => (k, with_key EnhancedLogViewer.groupId k E))).
      apply first_seen_In. rewrite <- Hg. apply in_map, He.
    + rewrite <- Hg. apply with_key_In, He.
  - intros k es e Hin He Hne.
    apply (Permutation_in _ Hperm) in Hin.
    apply in_groups_of in Hin. destruct Hin as (-> & _).
    unfold with_key in He. apply filter_In in He. destruct He as [_ Hkey].
    apply String.eqb_eq in Hkey.
    unfold EnhancedLogViewer.groupId, str_or in Hkey.
    destruct (tf_req_id e) as [r|]; [|congruence].
    destruct (r =? "")%string; congruence.
Qed.

Lemma legacy_grouping_witness :
  exists o,
    EnhancedLogViewer.groupEntries
      [sample_entry "1" (Some "X") None; sample_entry "2" None (Some "Y")]
    = JS.Normal o
    /\ map fst (JS.Object_entries o) = ["X"; "ungrouped"].
Proof.
  destruct (legacy_grouping
              [sample_entry "1" (Some "X") None;
               sample_entry "2" None (Some "Y")]) as (o & Ho & _).
  - intros e [<- | [<- | []]]; reflexivity.
  - exists o. split; [exact Ho|].
    vm_compute in Ho. injection Ho as <-. reflexivity.
Defined.

Lemma truthy_JStr (x : string) :
  JS.ToBoolean (JS.JStr x) = true <-> x <> "".
Proof.
  cbn. destruct (String.eqb_spec x ""); cbn; split; congruence.
Qed.

Lemma truthy_of_opt (o : option string) (v : string) :
  (JS.ToBoolean (JS.of_opt o) = true /\ v = JS.ToString (JS.of_opt o))
  <-> (o = Some v /\ v <> "").
Proof.
  destruct o as [x|]; cbn.
  - destruct (String.eqb_spec x ""); cbn; split; intros [H1 H2];
      try discriminate; split; congruence.
  - split; intros [H1 H2]; discriminate.
Qed.

(** X20: the query [loadLogs] sends names a filter exactly when that filter is
    set to a non-empty value, and sends that value; the "show read"
    checkbox is never sent, so that two filter states which differ in it
    alone give the same query. *)
Theorem queryParams_spec :
  forall (op lv : option string) (rt search : string) (showRead : bool),
    let q := EnhancedLogViewer.queryParams
               (EnhancedLogViewerWithFilters.mkFilters
                  op lv rt search showRead) in
    (forall k v,
        In (k, v) q <->
        v <> ""
        /\ ((k = "operation" /\ op = Some v)
            \/ (k = "level" /\ lv = Some v)
            \/ (k = "resourceType" /\ rt = v)
            \/ (k = "search" /\ search = v)))
    /\ q = EnhancedLogViewer.queryParams
             (EnhancedLogViewerWithFilters.mkFilters
                op lv rt search (negb showRead)).
Proof.
  intros op lv rt search showRead q. subst q.
  unfold EnhancedLogViewer.queryParams.
  cbn [EnhancedLogViewerWithFilters.f_operation
       EnhancedLogViewerWithFilters.f_level
       EnhancedLogViewerWithFilters.f_resourceType
       EnhancedLogViewerWithFilters.f_search
       EnhancedLogViewerWithFilters.f_showRead].
  split.
  - intros k v. rewrite in_map_iff. split.
    + intros ([k' val] & Heq & Hin). cbn [fst snd] in Heq.
      injection Heq as -> <-.
      apply filter_In in Hin. cbn [fst snd] in Hin.
      destruct Hin as [Hin Hkeep].
      apply andb_true_iff in Hkeep. destruct Hkeep as [Ht Hk].
      destruct Hin as [H | [H | [H | [H | [H | []]]]]];
        injection H as <- <-.
      * destruct (proj1 (truthy_of_opt op _) (conj Ht eq_refl)) as [H1 H2].
        split; [exact H2 | left; split; [reflexivity | exact H1]].
      * destruct (proj1 (truthy_of_opt lv _) (conj Ht eq_refl)) as [H1 H2].
        split; [exact H2 | right; left; split; [reflexivity | exact H1]].
      * split; [apply truthy_JStr, Ht | right; right; left; auto].
      * split; [apply truthy_JStr, Ht | right; right; right; auto].
      * discriminate Hk.
    + intros (Hv & [[-> H] | [[-> H] | [[-> H] | [-> H]]]]).
      * exists ("operation", JS.of_opt op).
        destruct (proj2 (truthy_of_opt op v) (conj H Hv)) as [Ht Hs].
        cbn [fst snd]. split; [congruence|].
        apply filter_In. split; [cbn; tauto|].
        cbn [fst snd]. rewrite Ht. reflexivity.
      * exists ("level", JS.of_opt lv).
        destruct (proj2 (truthy_of_opt lv v) (conj H Hv)) as [Ht Hs].
        cbn [fst snd]. split; [congruence|].
        apply filter_In. split; [cbn; tauto|].
        cbn [fst snd]. rewrite Ht. reflexivity.
      * exists ("resourceType", JS.JStr rt). subst rt.
        cbn [fst snd]. split; [reflexivity|].
        apply filter_In. split; [cbn; tauto|].
        cbn [fst snd]. rewrite (proj2 (truthy_JStr v) Hv). reflexivity.
      * exists ("search", JS.JStr search). subst search.
        cbn [fst snd]. split; [reflexivity|].
        apply filter_In. split; [cbn; tauto|].
        cbn [fst snd]. rewrite (proj2 (truthy_JStr v) Hv). reflexivity.
  - cbn [filter fst snd]. rewrite !andb_false_r. reflexivity.
Qed.

End LegacyViewer.

(* ================================================================== *)
(** * components/GanttChart.jsx: durations, counters, bars              *)
(* ================================================================== *)

Section Durations.

Import GanttChart.

Lemma Math_round_minutes (n : Z) :
  JS.Math_round (inject_Z n / 60) = (n + 30) / 60.
Proof.
  unfold JS.Math_round, Qfloor, Qdiv, Qmult, Qinv, Qplus, inject_Z.
  cbn [Qnum Qden].
  change (Z.pos (1 * 60 * 2)) with (2 * 60).
  replace (n * 1 * 2 + 1 * Z.pos (1 * 60)) with (2 * (n + 30)) by lia.
  apply Z.div_mul_cancel_l; lia.
Qed.

Lemma Qtrunc_minutes (n : Z) :
  0 <= n -> JS.Qtrunc (inject_Z n / 60) = n / 60.
Proof.
  intros H. unfold JS.Qtrunc.
  assert (E : Qle_bool 0 (inject_Z n / 60) = true).
  { apply Qle_bool_iff. apply Qle_shift_div_l; [reflexivity|].
    rewrite Qmult_0_l. change (inject_Z 0 <= inject_Z n)%Q.
    rewrite <- Zle_Qle. exact H. }
  rewrite E. unfold Qfloor, Qdiv, Qmult, Qinv, inject_Z. cbn [Qnum Qden].
  change (Z.pos (1 * 60)) with 60. f_equal. lia.
Qed.

Lemma Math_round_Qeq (x y : Q) :
  (x == y)%Q -> JS.Math_round x = JS.Math_round y.
Proof. intros H. unfold JS.Math_round. rewrite H. reflexivity. Qed.

Lemma rem_minutes (n : Z) :
  0 <= n -> (JS.rem (inject_Z n) 60 == inject_Z (n mod 60))%Q.
Proof.
  intros H. unfold JS.rem. rewrite (Qtrunc_minutes n H).
  rewrite (Z.mod_eq n 60) by lia.
  unfold Z.sub. rewrite inject_Z_plus, inject_Z_opp, inject_Z_mult.
  reflexivity.
Qed.

Lemma Qltb_inject (a b : Z) : JS.Qltb (inject_Z a) (inject_Z b) = (a <? b).
Proof.
  unfold JS.Qltb.
  destruct (Z.ltb_spec a b) as [H | H];
    destruct (Qle_bool (inject_Z b) (inject_Z a)) eqn:E; try reflexivity.
  - apply Qle_bool_iff in E. rewrite <- Zle_Qle in E. lia.
  - exfalso. rewrite Zle_Qle in H. apply Qle_bool_iff in H. congruence.
Qed.

(** X21: a whole number of seconds below a minute is shown as it is.  From a
    minute on, the minutes shown are the seconds divided by 60 and rounded
    to the nearest, not rounded down, next to the remainder: with a
    remainder below 30 the minutes are the full minutes, with a remainder
    of 30 or more they are one more. *)
Theorem formatDuration_whole_seconds :
  forall n : Z,
    (1 <= n < 60 ->
     formatDuration (inject_Z n) = (JS.string_of_Z n ++ "s")%string)
    /\ (60 <= n -> n mod 60 < 30 ->
        formatDuration (inject_Z n)
        = (JS.string_of_Z (n / 60) ++ "m "
           ++ JS.string_of_Z (n mod 60) ++ "s")%string)
    /\ (60 <= n -> 30 <= n mod 60 ->
        formatDuration (inject_Z n)
        = (JS.string_of_Z (n / 60 + 1) ++ "m "
           ++ JS.string_of_Z (n mod 60) ++ "s")%string).
Proof.
  intros n. unfold formatDuration.
  change 1%Q with (inject_Z 1). change 60%Q with (inject_Z 60).
  rewrite !Qltb_inject.
  assert (Hlong : 60 <= n ->
            (if n <? 1 then (JS.string_of_Z
                               (JS.Math_round (inject_Z n * 1000)) ++ "ms")%string
             else if n <? 60
                  then (JS.string_of_Z (JS.Math_round (inject_Z n)) ++ "s")%string
                  else (JS.string_of_Z (JS.Math_round (inject_Z n / inject_Z 60))
                        ++ "m "
                        ++ JS.string_of_Z
                             (JS.Math_round (JS.rem (inject_Z n) (inject_Z 60)))
                        ++ "s")%string)
            = (JS.string_of_Z ((n + 30) / 60) ++ "m "
               ++ JS.string_of_Z (n mod 60) ++ "s")%string).
  { intros H.
    destruct (Z.ltb_spec n 1); [lia|]. destruct (Z.ltb_spec n 60); [lia|].
    change (inject_Z 60) with 60%Q.
    rewrite Math_round_minutes.
    rewrite (Math_round_Qeq _ _ (rem_minutes n ltac:(lia))).
    rewrite Math_round_integer. reflexivity. }
  split; [|split].
  - intros [H1 H2].
    destruct (Z.ltb_spec n 1); [lia|]. destruct (Z.ltb_spec n 60); [|lia].
    rewrite Math_round_integer. reflexivity.
  - intros H Hm. rewrite (Hlong H). do 2 f_equal.
    rewrite (Z.div_mod n 60) at 1 by lia.
    replace (60 * (n / 60) + n mod 60 + 30)
      with ((n mod 60 + 30) + (n / 60) * 60) by lia.
    rewrite Z.div_add by lia.
    rewrite (Z.div_small (n mod 60 + 30) 60); [lia|].
    pose proof (Z.mod_pos_bound n 60). lia.
  - intros H Hm. rewrite (Hlong H). do 2 f_equal.
    rewrite (Z.div_mod n 60) at 1 by lia.
    replace (60 * (n / 60) + n mod 60 + 30)
      with ((n mod 60 - 30) + (n / 60 + 1) * 60) by lia.
    rewrite Z.div_add by lia.
    rewrite (Z.div_small (n mod 60 - 30) 60); [lia|].
    pose proof (Z.mod_pos_bound n 60). lia.
Qed.

Lemma formatDuration_whole_seconds_witness :
  formatDuration (inject_Z 45) = "45s"
  /\ formatDuration (inject_Z 125) = "2m 5s"
  /\ formatDuration (inject_Z 90) = "2m 30s".
Proof.
  destruct (formatDuration_whole_seconds 45) as (H45 & _).
  destruct (formatDuration_whole_seconds 125) as (_ & H125 & _).
  destruct (formatDuration_whole_seconds 90) as (_ & _ & H90).
  split; [|split].
  - rewrite H45 by lia. reflexivity.
  - rewrite H125 by (try reflexivity; lia). reflexivity.
  - rewrite H90; [reflexivity | lia | vm_compute; discriminate].
Defined.

Lemma Math_round_bounds (x : Q) (lo hi : Z) :
  (inject_Z lo <= x)%Q -> (x < inject_Z hi)%Q ->
  lo <= JS.Math_round x <= hi.
Proof.
  intros Hlo Hhi. unfold JS.Math_round.
  pose proof (Qfloor_le (x + (1 # 2))) as H1.
  pose proof (Qlt_floor (x + (1 # 2))) as H2.
  set (k := Qfloor (x + (1 # 2))) in *. clearbody k.
  split.
  - assert (H : (inject_Z lo < inject_Z (k + 1))%Q) by lra.
    rewrite <- Zlt_Qlt in H. lia.
  - assert (H : (inject_Z k < inject_Z (hi + 1))%Q).
    { rewrite inject_Z_plus. change (inject_Z 1) with 1%Q. lra. }
    rewrite <- Zlt_Qlt in H. lia.
Qed.

(** X22: below a second the duration is shown in milliseconds, from a second
    and below a minute in seconds, and the rounding lets either figure
    reach the bound of its range: up to [1000ms] and up to [60s]. *)
Theorem formatDuration_ranges :
  forall seconds : Q,
    ((0 <= seconds)%Q -> (seconds < 1)%Q ->
     exists ms, 0 <= ms <= 1000
                /\ formatDuration seconds
                   = (JS.string_of_Z ms ++ "ms")%string)
    /\ ((1 <= seconds)%Q -> (seconds < 60)%Q ->
        exists k, 1 <= k <= 60
                  /\ formatDuration seconds
                     = (JS.string_of_Z k ++ "s")%string).
Proof.
  intros seconds. unfold formatDuration, JS.Qltb. split.
  - intros H0 H1.
    assert (E : Qle_bool 1 seconds = false).
    { destruct (Qle_bool 1 seconds) eqn:E; [|reflexivity].
      apply Qle_bool_iff in E. lra. }
    rewrite E. cbn [negb].
    exists (JS.Math_round (seconds * 1000)). split; [|reflexivity].
    apply Math_round_bounds.
    + change (inject_Z 0) with 0%Q. lra.
    + change (inject_Z 1000) with 1000%Q. lra.
  - intros H1 H60.
    assert (E : Qle_bool 1 seconds = true) by (apply Qle_bool_iff; exact H1).
    assert (E' : Qle_bool 60 seconds = false).
    { destruct (Qle_bool 60 seconds) eqn:E'; [|reflexivity].
      apply Qle_bool_iff in E'. lra. }
    rewrite E, E'. cbn [negb].
    exists (JS.Math_round seconds). split; [|reflexivity].
    apply Math_round_bounds.
    + change (inject_Z 1) with 1%Q. exact H1.
    + change (inject_Z 60) with 60%Q. exact H60.
Qed.

Lemma formatDuration_ranges_witness :
  (exists ms, 0 <= ms <= 1000
              /\ formatDuration (9996 # 10000) = (JS.string_of_Z ms ++ "ms")%string)
  /\ formatDuration (9996 # 10000) = "1000ms"
  /\ formatDuration (119 # 2) = "60s".
Proof.
  split; [|split; reflexivity].
  destruct (formatDuration_ranges (9996 # 10000)) as [H _].
  apply H; [discriminate | reflexivity].
Defined.

End Durations.

Section Counters.

Import GanttChart.

Lemma count_type_filteredData (t : string) (ganttData : list GanttItem) :
  t <> "all" ->
  count_type t ganttData = List.length (filteredData t ganttData).
Proof.
  intros H. unfold count_type, filteredData.
  destruct (String.eqb_spec t "all"); [contradiction | reflexivity].
Qed.

(** X23: the rows shown under a filter are rows of the data, in their order;
    under a filter other than ["all"] they all have the type chosen;
    filtering twice is filtering once; and each of the three counters above
    the chart is the number of rows shown under the filter of its type. *)
Theorem filteredData_spec :
  forall (filter_ : string) (ganttData : list GanttItem),
    Subseq (filteredData filter_ ganttData) ganttData
    /\ (filter_ <> "all" ->
        forall item, In item (filteredData filter_ ganttData) <->
                     In item ganttData /\ type item = filter_)
    /\ filteredData "all" ganttData = ganttData
    /\ filteredData filter_ (filteredData filter_ ganttData)
       = filteredData filter_ ganttData
    /\ stats_total (stats ganttData)
       = List.length (filteredData "all" ganttData)
    /\ stats_plan (stats ganttData)
       = List.length (filteredData "plan" ganttData)
    /\ stats_apply (stats ganttData)
       = List.length (filteredData "apply" ganttData)
    /\ stats_validate (stats ganttData)
       = List.length (filteredData "validate" ganttData).
Proof.
  intros filter_ ganttData. unfold filteredData at 1 2 4 5 6.
  destruct (String.eqb_spec filter_ "all") as [Hall | Hne].
  - split; [apply Subseq_refl|]. split; [contradiction|].
    repeat split; reflexivity.
  - split; [apply Subseq_filter|]. split.
    + intros _ item. rewrite filter_In, String.eqb_eq. reflexivity.
    + split; [reflexivity|]. split.
      * rewrite filter_filter. apply filter_ext. intros item. apply andb_diag.
      * repeat split; reflexivity.
Qed.

Lemma filteredData_spec_witness :
  In (sample_item (Some 1) (Some 2))
     (filteredData "plan"
        [sample_item (Some 1) (Some 2); sample_item None None]).
Proof.
  destruct (filteredData_spec "plan"
              [sample_item (Some 1) (Some 2); sample_item None None])
    as (_ & H & _).
  apply H; [discriminate|]. split; [left; reflexivity | reflexivity].
Defined.

Lemma count_types_le (ganttData : list GanttItem) :
  (count_type "plan" ganttData + count_type "apply" ganttData
   + count_type "validate" ganttData <= List.length ganttData)%nat
  /\ ((count_type "plan" ganttData + count_type "apply" ganttData
       + count_type "validate" ganttData = List.length ganttData)%nat <->
      forall item, In item ganttData ->
                   In (type item) ["plan"; "apply"; "validate"]).
Proof.
  unfold count_type.
  induction ganttData as [|item t [IHle IHeq]]; cbn [filter List.length].
  - split; [lia|]. split; [intros _ item [] | reflexivity].
  - assert (Htail : (forall i, In i (item :: t) ->
                       In (type i) ["plan"; "apply"; "validate"]) ->
                    forall i, In i t ->
                      In (type i) ["plan"; "apply"; "validate"]).
    { intros H i Hi. apply H. right. exact Hi. }
    destruct (String.eqb_spec (type item) "plan") as [E1 | E1];
      destruct (String.eqb_spec (type item) "apply") as [E2 | E2];
      destruct (String.eqb_spec (type item) "validate") as [E3 | E3];
      try (exfalso; congruence); cbn [List.length];
      (split; [lia|]); split; intros H.
    + intros i [<- | Hi]; [rewrite E1; cbn; tauto | apply IHeq; [lia|exact Hi]].
    + pose proof (proj2 IHeq (Htail H)). lia.
    + intros i [<- | Hi]; [rewrite E2; cbn; tauto | apply IHeq; [lia|exact Hi]].
    + pose proof (proj2 IHeq (Htail H)). lia.
    + intros i [<- | Hi]; [rewrite E3; cbn; tauto | apply IHeq; [lia|exact Hi]].
    + pose proof (proj2 IHeq (Htail H)). lia.
    + lia.
    + exfalso. specialize (H item (or_introl eq_refl)). cbn in H.
      destruct H as [H | [H | [H | []]]]; congruence.
Qed.

(** X24: the three counters by type never add up to more than the total, and
    they add up to it exactly when every operation is a plan, an apply or a
    validate: operations of another type, ["unknown"] among them, are
    counted in the total only. *)
Theorem counters_by_type :
  forall ganttData : list GanttItem,
    let st := stats ganttData in
    (stats_plan st + stats_apply st + stats_validate st <= stats_total st)%nat
    /\ ((stats_plan st + stats_apply st + stats_validate st
         = stats_total st)%nat <->
        forall item, In item ganttData ->
                     In (type item) ["plan"; "apply"; "validate"]).
Proof. intros ganttData. apply count_types_le. Qed.

Lemma fold_sum_shift (l : list GanttItem) (a : Q) :
  (fold_left (fun acc item => acc + duration item) l a
   == a + fold_left (fun acc item => acc + duration item) l 0)%Q.
Proof.
  revert a. induction l as [|x t IH]; intros a; cbn [fold_left].
  - lra.
  - rewrite (IH (a + duration x)%Q), (IH (0 + duration x)%Q). lra.
Qed.

Lemma fold_sum_nonneg (l : list GanttItem) :
  (forall item, In item l -> (0 <= duration item)%Q) ->
  (0 <= fold_left (fun acc item => acc + duration item) l 0)%Q.
Proof.
  induction l as [|x t IH]; intros H; cbn [fold_left].
  - lra.
  - rewrite fold_sum_shift.
    pose proof (H x (or_introl eq_refl)) as Hx.
    assert (Ht : (0 <= fold_left (fun acc item => acc + duration item) t 0)%Q)
      by (apply IH; intros i Hi; apply H; right; exact Hi).
    lra.
Qed.

(** X25: the average duration is 0 without data (nothing is divided by
    zero), it is the duration of the operation when there is just one, and
    it is not negative when no duration is. *)
Theorem avgDuration_edge_cases :
  forall ganttData : list GanttItem,
    (ganttData = [] -> stats_avgDuration (stats ganttData) = 0%Q)
    /\ (forall item, ganttData = [item] ->
          (stats_avgDuration (stats ganttData) == duration item)%Q)
    /\ ((forall item, In item ganttData -> (0 <= duration item)%Q) ->
        (0 <= stats_avgDuration (stats ganttData))%Q).
Proof.
  intros ganttData. split; [intros ->; reflexivity|]. split.
  - intros item ->. unfold stats.
    cbn [stats_avgDuration List.length Nat.ltb Nat.leb fold_left Z.of_nat
         Pos.of_succ_nat].
    change (inject_Z 1) with 1%Q. field.
  - intros Hb. unfold stats. cbn [stats_avgDuration].
    destruct ganttData as [|x t]; [cbn; lra|].
    cbn [List.length Nat.ltb Nat.leb].
    set (n := inject_Z (Z.of_nat (S (List.length t)))).
    assert (Hn : (0 < n)%Q).
    { unfold n. change 0%Q with (inject_Z 0). rewrite <- Zlt_Qlt. lia. }
    clearbody n. pose proof (fold_sum_nonneg (x :: t) Hb) as Hsum.
    apply Qle_shift_div_l; [exact Hn | lra].
Qed.

Lemma avgDuration_edge_cases_witness :
  (0 <= stats_avgDuration
          (stats [mkGanttItem "a" "t" "plan" None None (3 # 2) 1 [];
                  mkGanttItem "b" "t" "apply" None None (5 # 2) 1 []]))%Q.
Proof.
  apply (avgDuration_edge_cases
           [mkGanttItem "a" "t" "plan" None None (3 # 2) 1 [];
            mkGanttItem "b" "t" "apply" None None (5 # 2) 1 []]).
  intros item [<- | [<- | []]]; cbn; discriminate.
Defined.

End Counters.

Section Bars.

Import GanttChart.

(** The numbers behind a bar of a collection of well-timed segments. *)
Lemma bar_numbers (now : Z) (S : list GanttItem) (item : GanttItem) :
  (forall i, In i S -> well_timed i) -> In item S ->
  exists (s e m M : Z) (r : Q),
    start item = Some s /\ end_ item = Some e
    /\ In m (instants S) /\ In M (instants S)
    /\ (forall t, In t (instants S) -> m <= t <= M)
    /\ In s (instants S) /\ In e (instants S)
    /\ (0 < r)%Q
    /\ (M = m -> r == 1)%Q
    /\ (M <> m -> r == inject_Z M - inject_Z m)%Q
    /\ left (getBarStyle (getTimelineScale now S) item)
       = JS.Fin ((inject_Z s - inject_Z m) / r * 100)
    /\ width (getBarStyle (getTimelineScale now S) item)
       = JS.max2 (JS.Fin ((inject_Z e - inject_Z s) / r * 100))
                 (JS.Fin (1 # 2)).
Proof.
  intros Hwt Hin.
  assert (Hne : S <> []) by (intros ->; destruct Hin).
  destruct (Hwt item Hin) as (s & e & Hs & He).
  destruct (instants_In S item s e Hin Hs He) as [Hsi Hei].
  destruct (scale_well_timed now S Hne Hwt) as (m & M & Hm & HM & Hb & ->).
  pose proof (Hb M HM) as [HmM _]. rewrite Zle_Qle in HmM.
  set (r := if Qeq_bool (inject_Z M - inject_Z m) 0
            then 1%Q else (inject_Z M - inject_Z m)%Q).
  assert (Hrange :
            (if Qeq_bool (inject_Z M - inject_Z m) 0
             then JS.Fin 1 else JS.Fin (inject_Z M - inject_Z m))
            = JS.Fin r).
  { unfold r. destruct (Qeq_bool (inject_Z M - inject_Z m) 0); reflexivity. }
  rewrite Hrange.
  assert (Hr : (0 < r)%Q /\ (M = m -> r == 1)%Q
               /\ (M <> m -> r == inject_Z M - inject_Z m)%Q).
  { unfold r. destruct (Qeq_bool (inject_Z M - inject_Z m) 0) eqn:E.
    - apply Qeq_bool_iff in E. split; [lra|]. split; [reflexivity|].
      intros Hd. exfalso. apply Hd. apply inject_Z_injective. lra.
    - apply Qeq_bool_neq in E. split; [|split; [|reflexivity]].
      + destruct (Qlt_le_dec 0 (inject_Z M - inject_Z m)) as [Hlt | Hle];
          [exact Hlt|].
        exfalso. apply E. lra.
      + intros ->. exfalso. apply E. lra. }
  destruct Hr as (Hrpos & Hr1 & Hr2).
  assert (Hnz : JS.is_zero r = false).
  { unfold JS.is_zero. destruct (Qeq_bool r 0) eqn:E; [|reflexivity].
    apply Qeq_bool_iff in E. lra. }
  exists s, e, m, M, r.
  unfold getBarStyle. cbn [min range left width]. rewrite Hs, He.
  unfold getTime, fin, JS.sub, JS.div. rewrite Hnz. unfold JS.mul.
  repeat (split; [assumption || reflexivity|]). reflexivity.
Qed.

Lemma span_le_range (a b m M : Z) (r : Q) :
  m <= a <= M -> m <= b <= M ->
  (0 < r)%Q -> (M = m -> r == 1)%Q ->
  (M <> m -> r == inject_Z M - inject_Z m)%Q ->
  (inject_Z b - inject_Z a <= r)%Q.
Proof.
  intros [Ha1 Ha2] [Hb1 Hb2] Hr H1 H2.
  rewrite Zle_Qle in Ha1, Ha2, Hb1, Hb2.
  destruct (Z.eq_dec M m) as [E | E].
  - rewrite (H1 E). subst M. lra.
  - rewrite (H2 E). lra.
Qed.

(** X26: in a collection whose times parse, no bar is wider than the axis;
    a segment that ends no later than it starts has the minimum width
    0.5; the bar of a segment that starts at the earliest instant of the
    collection sits at the left edge; and a segment that spans from the
    earliest to the latest instant, the two being distinct, fills the
    axis. *)
Theorem bar_anchors :
  forall (now : Z) (S : list GanttItem) (item : GanttItem)
         (style : BarStyle),
    (forall i, In i S -> well_timed i) ->
    In (item, style) (layout now S) ->
    exists (s e : Z) (l w : Q),
      start item = Some s /\ end_ item = Some e
      /\ left style = JS.Fin l /\ width style = JS.Fin w
      /\ (w <= 100)%Q
      /\ (e <= s -> w = (1 # 2)%Q)
      /\ ((forall t, In t (instants S) -> s <= t) -> (l == 0)%Q)
      /\ ((forall t, In t (instants S) -> s <= t <= e) -> s < e ->
          (w == 100)%Q).
Proof.
  intros now S item style Hwt Hbar.
  apply in_layout in Hbar. destruct Hbar as [Hin ->].
  destruct (bar_numbers now S item Hwt Hin)
    as (s & e & m & M & r & Hs & He & Hm & HM & Hb & Hsi & Hei
        & Hr & Hr1 & Hr2 & -> & ->).
  pose proof (span_le_range s e m M r (Hb s Hsi) (Hb e Hei) Hr Hr1 Hr2)
    as Hspan.
  set (x := ((inject_Z e - inject_Z s) / r * 100)%Q).
  assert (Hx100 : (x <= 100)%Q).
  { assert (Hq : ((inject_Z e - inject_Z s) / r <= 1)%Q)
      by (apply Qle_shift_div_r; [exact Hr | lra]).
    unfold x. lra. }
  assert (Hw : exists w, JS.max2 (JS.Fin x) (JS.Fin (1 # 2)) = JS.Fin w
                         /\ ((x <= 1 # 2)%Q -> w = (1 # 2)%Q)
                         /\ ((1 # 2 < x)%Q -> w = x)
                         /\ (w <= 100)%Q).
  { unfold JS.max2. destruct (Qle_bool x (1 # 2)) eqn:E.
    - exists (1 # 2)%Q. split; [reflexivity|]. split; [reflexivity|].
      apply Qle_bool_iff in E. split; [intros H; lra | discriminate].
    - exists x. split; [reflexivity|]. split; [|split; [reflexivity|exact Hx100]].
      intros H. apply Qle_bool_iff in H. congruence. }
  destruct Hw as (w & -> & Hw1 & Hw2 & Hw100).
  exists s, e, ((inject_Z s - inject_Z m) / r * 100)%Q, w.
  split; [exact Hs|]. split; [exact He|].
  split; [reflexivity|]. split; [reflexivity|].
  split; [exact Hw100|]. split; [|split].
  - intros Hes. apply Hw1.
    assert (Hq : ((inject_Z e - inject_Z s) / r <= 0)%Q).
    { apply Qle_shift_div_r; [exact Hr|].
      rewrite Zle_Qle in Hes. lra. }
    unfold x. lra.
  - intros Hfirst.
    assert (m = s).
    { pose proof (Hfirst m Hm). destruct (Hb s Hsi). lia. }
    subst m. unfold Qdiv.
    setoid_replace (inject_Z s - inject_Z s)%Q with 0%Q by lra. lra.
  - intros Hall Hlt.
    assert (m = s).
    { destruct (Hall m Hm). destruct (Hb s Hsi). lia. }
    assert (M = e).
    { destruct (Hall M HM). destruct (Hb e Hei). lia. }
    subst m M.
    assert (Hre : (r == inject_Z e - inject_Z s)%Q) by (apply Hr2; lia).
    assert (Hxe : (x == 100)%Q).
    { unfold x. rewrite Hre. field. rewrite Zlt_Qlt in Hlt. lra. }
    rewrite Hw2 by (rewrite Hxe; reflexivity). exact Hxe.
Qed.

Lemma bar_anchors_witness :
  exists w : Q,
    width (getBarStyle
             (getTimelineScale 0 [sample_item (Some 100) (Some 250);
                                  sample_item (Some 250) (Some 250)])
             (sample_item (Some 250) (Some 250))) = JS.Fin w
    /\ (w <= 100)%Q.
Proof.
  destruct (bar_anchors 0
              [sample_item (Some 100) (Some 250);
               sample_item (Some 250) (Some 250)]
              (sample_item (Some 250) (Some 250))
              (getBarStyle
                 (getTimelineScale 0 [sample_item (Some 100) (Some 250);
                                      sample_item (Some 250) (Some 250)])
                 (sample_item (Some 250) (Some 250))))
    as (s & e & l & w & _ & _ & _ & Hw & Hle & _).
  - intros i [<- | [<- | []]]; eexists _, _; split; reflexivity.
  - right; left; reflexivity.
  - exists w. split; [exact Hw | exact Hle].
Defined.

(** X27: a chart of a single segment: the bar starts at the left edge and fills
    the axis when the segment ends after it starts, it has the minimum
    width when the segment is an instant, and when the end is before the
    start it sits at the right edge with the minimum width. *)
Theorem single_bar :
  forall (now : Z) (item : GanttItem) (s e : Z),
    start item = Some s -> end_ item = Some e ->
    exists l w : Q,
      left (getBarStyle (getTimelineScale now [item]) item) = JS.Fin l
      /\ width (getBarStyle (getTimelineScale now [item]) item) = JS.Fin w
      /\ (s < e -> (l == 0)%Q /\ (w == 100)%Q)
      /\ (s = e -> (l == 0)%Q /\ (w == 1 # 2)%Q)
      /\ (e < s -> (l == 100)%Q /\ (w == 1 # 2)%Q).
Proof.
  intros now item s e Hs He.
  assert (Hwt : forall i, In i [item] -> well_timed i).
  { intros i [<- | []]. exists s, e. split; assumption. }
  destruct (bar_numbers now [item] item Hwt (or_introl eq_refl))
    as (s' & e' & m & M & r & Hs' & He' & Hm & HM & Hb & _ & _
        & Hr & Hr1 & Hr2 & -> & ->).
  assert (s' = s) by congruence. assert (e' = e) by congruence. subst s' e'.
  assert (Hinst : instants [item] = [s; e]).
  { unfold instants. cbn [flat_map]. rewrite Hs, He. reflexivity. }
  rewrite Hinst in Hm, HM, Hb.
  assert (Hbs := Hb s (or_introl eq_refl)).
  assert (Hbe := Hb e (or_intror (or_introl eq_refl))).
  assert (Hmm : m = Z.min s e /\ M = Z.max s e).
  { destruct Hm as [<- | [<- | []]]; destruct HM as [<- | [<- | []]]; lia. }
  destruct Hmm as [Em EM].
  set (x := ((inject_Z e - inject_Z s) / r * 100)%Q).
  assert (Hw : exists w, JS.max2 (JS.Fin x) (JS.Fin (1 # 2)) = JS.Fin w
                         /\ ((x <= 1 # 2)%Q -> w = (1 # 2)%Q)
                         /\ ((1 # 2 < x)%Q -> w = x)).
  { unfold JS.max2. destruct (Qle_bool x (1 # 2)) eqn:E.
    - exists (1 # 2)%Q. split; [reflexivity|]. split; [reflexivity|].
      apply Qle_bool_iff in E. intros H. lra.
    - exists x. split; [reflexivity|]. split; [|reflexivity].
      intros H. apply Qle_bool_iff in H. congruence. }
  destruct Hw as (w & -> & Hw1 & Hw2).
  exists ((inject_Z s - inject_Z m) / r * 100)%Q, w.
  split; [reflexivity|]. split; [reflexivity|].
  split; [|split].
  - intros Hlt. assert (m = s) by lia. assert (M = e) by lia.
    clear Em EM. subst m M.
    assert (Hre : (r == inject_Z e - inject_Z s)%Q) by (apply Hr2; lia).
    assert (Hx : (x == 100)%Q).
    { unfold x. rewrite Hre. field.
      rewrite Zlt_Qlt in Hlt. lra. }
    split.
    + unfold Qdiv. setoid_replace (inject_Z s - inject_Z s)%Q with 0%Q by lra.
      lra.
    + rewrite Hw2 by (rewrite Hx; reflexivity). exact Hx.
  - intros Heq. assert (m = s) by lia. clear Em EM. subst e m.
    split.
    + unfold Qdiv. setoid_replace (inject_Z s - inject_Z s)%Q with 0%Q by lra.
      lra.
    + rewrite Hw1; [reflexivity|]. unfold x, Qdiv.
      setoid_replace (inject_Z s - inject_Z s)%Q with 0%Q by lra. lra.
  - intros Hlt. assert (m = e) by lia. assert (M = s) by lia.
    clear Em EM. subst m M.
    assert (Hre : (r == inject_Z s - inject_Z e)%Q) by (apply Hr2; lia).
    rewrite Zlt_Qlt in Hlt.
    split.
    + rewrite Hre. field. lra.
    + rewrite Hw1; [reflexivity|].
      assert (Hx : (x == -(100))%Q).
      { unfold x. rewrite Hre. field. lra. }
      rewrite Hx. discriminate.
Qed.

Lemma single_bar_witness :
  exists l w : Q,
    left (getBarStyle (getTimelineScale 0 [sample_item (Some 5) (Some 9)])
                      (sample_item (Some 5) (Some 9))) = JS.Fin l
    /\ (l == 0)%Q /\
    width (getBarStyle (getTimelineScale 0 [sample_item (Some 5) (Some 9)])
                       (sample_item (Some 5) (Some 9))) = JS.Fin w
    /\ (w == 100)%Q.
Proof.
  destruct (single_bar 0 (sample_item (Some 5) (Some 9)) 5 9
              eq_refl eq_refl) as (l & w & Hl & Hw & Hlt & _).
  assert (H59 : 5 < 9) by lia.
  destruct (Hlt H59) as [H0 H100].
  exists l, w. split; [exact Hl|]. split; [exact H0|].
  split; [exact Hw | exact H100].
Defined.

End Bars.
